(** * universi: derivation of per-version route tables

    A shallow embedding of [universi/routing.py]: the annotation
    transformer ([_AnnotationTransformer], [_generate_signature]) and the
    endpoint transformer ([_EndpointTransformer], [_get_routes],
    [_apply_endpoint_had_instruction], ...), with the properties of the
    specification stated and proved over them. *)

From stdpp Require Import gmap strings list fin_maps.
From Stdlib Require Import ZArith.

Set Warnings "-register-all,-clear-no-such-hyp".

(** ** Python values, errors and results *)

(** Scalar Python values: [None], booleans, integers and strings. *)
Inductive attr_value :=
  | VNone
  | VBool (b : bool)
  | VInt (n : Z)
  | VStr (s : string).

#[export] Instance attr_value_eq_dec : EqDecision attr_value.
Proof. solve_decision. Defined.

(** Python's [==] on scalars: [bool] is a subclass of [int], so
    [True == 1] and [False == 0]; values of unrelated types are unequal. *)
Definition py_eq (x y : attr_value) : bool :=
  match x, y with
  | VNone, VNone => true
  | VBool a, VBool b => bool_decide (a = b)
  | VBool a, VInt n | VInt n, VBool a => bool_decide (Z.b2z a = n)
  | VInt n, VInt m => bool_decide (n = m)
  | VStr s, VStr t => bool_decide (s = t)
  | _, _ => false
  end.

(** A [pathlib.Path] as the list of its components below the root. *)
Abbreviation Path := (list string).

(** A [datetime.date] used as a version key, in ISO form. *)
Abbreviation VersionDate := string.

(** The exceptions the module raises. [RouterGenerationError] carries
    which of the messages of the source it was raised with. *)
Inductive generation_error :=
  | AlreadyDeleted (methods : gset string) (endpoint_path : string)
      (version_change : string) (func_names : list string)
  | AlreadyExisted (methods : gset string) (endpoint_path : string)
      (version_change : string) (func_names : list string)
  | DifferentApplicableRoutes (methods : gset string) (endpoint_path : string)
      (version_change : string) (func_names : list string)
  | DeletedDoesntExist (method_diff : gset string) (endpoint_path : string)
      (version_change : string)
  | RestoredWasntDeleted (method_diff : gset string) (endpoint_path : string)
      (version_change : string)
  | ChangedDoesntExist (method_diff : gset string) (endpoint_path : string)
      (version_change : string)
  | HandlerChangedDoesntExist (method_diff : gset string) (endpoint_path : string)
      (version_change : string)
  | AttributeIsTheSame (attr_name : string) (methods : gset string)
      (path : attr_value) (version_change : string)
  | NeverRestored (routes : list nat)
  | EndpointsMustBeAsync
  | NotAPackage (module_name : string)
  | NotNamedLatest (module_name : string)
  | VersionDirDoesNotExist (version_dir : Path)
  | NotDefinedInLatest (cls : string) (template_version_dir : Path)
      (source_file : string).

Inductive exn :=
  | RouterGenerationError (e : generation_error)
  | UniversiError (func_name : string)
  | LookupError (func_name : string)
  | AttributeError (attr_name : string)
  | IndexError
  | ValueError
  | ImportError (cls : string).

Inductive result (A : Type) :=
  | Ok (a : A)
  | Raise (e : exn).
Arguments Ok {A} a.
Arguments Raise {A} e.

Notation "'let?' x := e 'in' k" :=
  (match e with Ok x => k | Raise err => Raise err end)
  (at level 10, x pattern, e at level 200, k at level 200, only parsing).

Definition is_ok {A} (r : result A) : bool :=
  match r with Ok _ => true | Raise _ => false end.

(** ** Annotations *)

Inductive ParameterKind :=
  | POSITIONAL_ONLY
  | POSITIONAL_OR_KEYWORD
  | VAR_POSITIONAL
  | KEYWORD_ONLY
  | VAR_KEYWORD.

#[export] Instance ParameterKind_eq_dec : EqDecision ParameterKind.
Proof. solve_decision. Defined.

(** [inspect.Parameter]; [None] stands for [inspect.Signature.empty]. *)
Record Param (A : Type) := mkParam {
  p_name : string;
  p_kind : ParameterKind;
  p_default : option A;
  p_annotation : option A;
}.
Arguments mkParam {A}.
Arguments p_name {A}.
Arguments p_kind {A}.
Arguments p_default {A}.
Arguments p_annotation {A}.

(** [inspect.Signature]. *)
Record Signature (A : Type) := mkSignature {
  parameters : list (Param A);
  return_annotation : option A;
}.
Arguments mkSignature {A}.
Arguments parameters {A}.
Arguments return_annotation {A}.

(** A class object. Classes are compared by identity, which the qualified
    name stands for; [is_schema] is [issubclass(cls, BaseModel | Enum)]
    and [source_file] is [inspect.getsourcefile(cls)]. *)
Record pytype := mkType {
  cls_name : string;
  is_schema : bool;
  source_file : option string;
}.

#[export] Instance pytype_eq_dec : EqDecision pytype.
Proof. solve_decision. Defined.

(** A function object: its identity, [__name__], whether it is a
    coroutine function, [__annotations__] (a dict), [__defaults__], the
    signature [inspect.signature] reports for it and, for a wrapper, the
    callable its body calls with the arguments it receives. *)
Record Function (A : Type) := mkFunction {
  fn_id : nat;
  fn_name : string;
  fn_is_coroutine : bool;
  fn_annotations : list (A * A);
  fn_defaults : list A;
  fn_signature : Signature A;
  fn_calls : option A;
}.
Arguments mkFunction {A}.
Arguments fn_id {A}.
Arguments fn_name {A}.
Arguments fn_is_coroutine {A}.
Arguments fn_annotations {A}.
Arguments fn_defaults {A}.
Arguments fn_signature {A}.
Arguments fn_calls {A}.

(** The values the annotation transformer walks through, one constructor
    per case it distinguishes. A [Depends] object is compared by identity
    ([id]); a dict is the list of its items in insertion order. *)
Inductive Annotation :=
  | ADict (items : list (Annotation * Annotation))
  | AList (items : list Annotation)
  | ATuple (items : list Annotation)
  | AGenericAlias (origin : string) (args : list Annotation)
  | ADepends (id : nat) (dependency : Annotation) (use_cache : bool)
  | AUnionType (args : list Annotation)
  | AAny
  | ANewType (name : string)
  | AType (cls : pytype)
  | ACallable (f : Function Annotation)
  | AOther (v : attr_value).

Section eq_dec_records.
Context {A : Type} (dec : ∀ x y : A, {x = y} + {x ≠ y}).

Lemma Param_eq_dec (p q : Param A) : {p = q} + {p ≠ q}.
Proof.
  decide equality; first
    [ apply String.string_dec | apply ParameterKind_eq_dec
    | decide equality; exact dec ].
Defined.

Lemma Signature_eq_dec (p q : Signature A) : {p = q} + {p ≠ q}.
Proof.
  decide equality; first
    [ apply List.list_eq_dec, Param_eq_dec | decide equality; exact dec ].
Defined.

Lemma Function_eq_dec (p q : Function A) : {p = q} + {p ≠ q}.
Proof.
  decide equality; first
    [ apply Signature_eq_dec
    | decide equality; exact dec
    | apply List.list_eq_dec; first [exact dec | decide equality]
    | apply bool_dec | apply String.string_dec | apply Nat.eq_dec ].
Defined.
End eq_dec_records.

Lemma Annotation_eq_dec : ∀ a b : Annotation, {a = b} + {a ≠ b}.
Proof.
  fix IH 1. intros a b.
  decide equality; first
    [ apply List.list_eq_dec; first [exact IH | decide equality]
    | apply (Function_eq_dec IH)
    | apply String.string_dec | apply bool_dec | apply attr_value_eq_dec
    | apply pytype_eq_dec | apply Nat.eq_dec ].
Defined.

#[export] Instance Annotation_eqdec : EqDecision Annotation := Annotation_eq_dec.

(** *** Dicts as item lists *)

(** [d.get(key)]. *)
Fixpoint dict_get {K V} `{EqDecision K} (d : list (K * V)) (key : K) : option V :=
  match d with
  | [] => None
  | (k, v) :: rest => if decide (k = key) then Some v else dict_get rest key
  end.

(** [d[key] = value]: an existing key keeps its position. *)
Fixpoint dict_set {K V} `{EqDecision K} (d : list (K * V)) (key : K) (value : V)
  : list (K * V) :=
  match d with
  | [] => [(key, value)]
  | (k, v) :: rest =>
      if decide (k = key) then (k, value) :: rest
      else (k, v) :: dict_set rest key value
  end.

(** *** Paths *)

(** [str(path)] of an absolute POSIX path. *)
Definition path_str (p : Path) : string :=
  match p with
  | [] => "/"
  | _ => String.concat "" (map (String.append "/") p)
  end.

(** [path.parent]. *)
Definition parent (p : Path) : Path := removelast p.

(** [p < q] on paths: component lists compared lexicographically. *)
Fixpoint path_ltb (p q : Path) : bool :=
  match p, q with
  | [], [] => false
  | [], _ :: _ => true
  | _ :: _, [] => false
  | a :: p', b :: q' =>
      match String.compare a b with
      | Lt => true
      | Gt => false
      | Eq => path_ltb p' q'
      end
  end.

(** [min(dirs)] and [max(dirs)] of a non-empty collection, given as its
    first element and the rest. *)
Definition path_min (d : Path) (dirs : list Path) : Path :=
  foldl (λ m x, if path_ltb x m then x else m) d dirs.

Definition path_max (d : Path) (dirs : list Path) : Path :=
  foldl (λ m x, if path_ltb m x then x else m) d dirs.

(** ** The annotation transformer *)

(** A module object, as far as the transformer looks at it: its
    [__name__] and whether it has a [__path__]. *)
Record ModuleType := mkModule {
  module_name : string;
  has_path : bool;
}.

(** [name.endswith(".latest")]. *)
Definition endswith (suffix s : string) : bool :=
  String.prefix (String.rev suffix) (String.rev s).

(** [functools.wraps] copies the metadata of the wrapped function and
    [new_callable.__signature__] is what [inspect.signature] then reports. *)

(** [_generate_signature]; [new_defaults] and [new_annotations] are
    [new_callable.__defaults__] and [new_callable.__annotations__].
    Indexing the defaults out of range raises [IndexError]. *)
Fixpoint generate_parameters {A} `{EqDecision A} (key_of : string → A)
    (new_defaults : list A) (new_annotations : list (A * A))
    (old_params : list (Param A)) (default_counter : nat)
  : result (list (Param A)) :=
  match old_params with
  | [] => Ok []
  | param :: rest =>
      match p_default param with
      | Some _ =>
          match new_defaults !! default_counter with
          | Some default =>
              let? parameters :=
                generate_parameters key_of new_defaults new_annotations rest
                  (S default_counter) in
              Ok (mkParam (p_name param) (p_kind param) (Some default)
                    (dict_get new_annotations (key_of (p_name param)))
                  :: parameters)
          | None => Raise IndexError
          end
      | None =>
          let? parameters :=
            generate_parameters key_of new_defaults new_annotations rest
              default_counter in
          Ok (mkParam (p_name param) (p_kind param) None
                (dict_get new_annotations (key_of (p_name param)))
              :: parameters)
      end
  end.

Definition _generate_signature {A} `{EqDecision A} (key_of : string → A)
    (new_defaults : list A) (new_annotations : list (A * A))
    (old_params : list (Param A)) : result (Signature A) :=
  let? parameters :=
    generate_parameters key_of new_defaults new_annotations old_params 0 in
  Ok (mkSignature parameters (dict_get new_annotations (key_of "return"))).

(** The string key of an [__annotations__] dict. *)
Definition str_key (s : string) : Annotation := AOther (VStr s).

(** The mutable state of one transformer: the [functools.cache] around
    [_change_versions_of_a_non_container_annotation], newest entry first,
    and the supply of identities for the objects it creates. *)
Record engine := mkEngine {
  cache : list (Annotation * Path * Annotation);
  next_id : nat;
}.

Definition cache_get (c : list (Annotation * Path * Annotation))
    (annotation : Annotation) (version_dir : Path) : option Annotation :=
  dict_get c (annotation, version_dir).

(** A call through the cache: a hit returns the stored result, a miss
    runs the function and stores what it returned. *)
Definition cached (annotation : Annotation) (version_dir : Path) (st : engine)
    (compute : engine → result (Annotation * engine))
  : result (Annotation * engine) :=
  match cache_get (cache st) annotation version_dir with
  | Some hit => Ok (hit, st)
  | None =>
      let? (value, st') := compute st in
      Ok (value, mkEngine ((annotation, version_dir, value) :: cache st') (next_id st'))
  end.

(** A generator run over a list, threading the state from left to right. *)
Definition for_each {A B S} (f : A → S → result (B * S))
  : list A → S → result (list B * S) :=
  fix go (l : list A) (st : S) : result (list B * S) :=
    match l with
    | [] => Ok ([], st)
    | x :: rest =>
        let? (y, st1) := f x st in
        let? (ys, st2) := go rest st1 in
        Ok (y :: ys, st2)
    end.

(** The dict comprehension over [annotation.items()]: each key, then its
    value; an equal key written twice keeps the last value. *)
Definition for_each_item {A S} `{EqDecision A} (f : A → S → result (A * S))
  : list (A * A) → list (A * A) → S → result (list (A * A) * S) :=
  fix go (l acc : list (A * A)) (st : S) : result (list (A * A) * S) :=
    match l with
    | [] => Ok (acc, st)
    | (key, value) :: rest =>
        let? (key', st1) := f key st in
        let? (value', st2) := f value st1 in
        go rest (dict_set acc key' value') st2
    end.

(** The defaults of the parameters that have one, in parameter order:
    [tuple(p.default for p in old_params.values() if p.default is not empty)]. *)
Definition defaults_of {A} (old_params : list (Param A)) : list A :=
  omap p_default old_params.

(** [for_each f (defaults_of old_params)], written over the parameters. *)
Definition for_each_default {A S} (f : A → S → result (A * S))
  : list (Param A) → S → result (list A * S) :=
  fix go (l : list (Param A)) (st : S) : result (list A * S) :=
    match l with
    | [] => Ok ([], st)
    | param :: rest =>
        match p_default param with
        | Some default =>
            let? (y, st1) := f default st in
            let? (ys, st2) := go rest st1 in
            Ok (y :: ys, st2)
        | None => go rest st
        end
    end.

Section AnnotationTransformer.

(** [universi._utils.get_another_version_of_cls] is not part of the
    files at hand: it is the resolver of the code generator and is taken
    as given. *)
Variable get_another_version_of_cls : pytype → Path → list Path → result pytype.

(** The fields [__init__] sets, the cache apart (see [engine]). *)
Record _AnnotationTransformer := mkAnnotationTransformer {
  latest_schemas_module : ModuleType;
  version_dirs : list Path;
  template_version_dir : Path;
  latest_version_dir : Path;
}.

Definition _change_version_of_type (self : _AnnotationTransformer)
    (annotation : pytype) (version_dir : Path) : result pytype :=
  if is_schema annotation then
    let? _ :=
      if decide (version_dir = latest_version_dir self) then
        match source_file annotation with
        | None => Ok tt
        | Some source_file =>
            let template_dir := path_str (template_version_dir self) in
            let dir_with_versions := path_str (parent (template_version_dir self)) in
            if String.prefix dir_with_versions source_file
               && negb (String.prefix template_dir source_file)
               && existsb (λ d, String.prefix (path_str d) source_file)
                    (version_dirs self)
            then Raise (RouterGenerationError
                   (NotDefinedInLatest (cls_name annotation)
                      (template_version_dir self) source_file))
            else Ok tt
        end
      else Ok tt in
    get_another_version_of_cls annotation version_dir (version_dirs self)
  else Ok annotation.

(** [_change_version_of_annotations] together with
    [_change_versions_of_a_non_container_annotation], which it reaches
    through the cache for everything but dicts, lists and tuples.
    Subscripting an origin with the new arguments is kept symbolic. *)
Fixpoint _change_version_of_annotations (self : _AnnotationTransformer)
    (annotation : Annotation) (version_dir : Path) (st : engine)
    {struct annotation} : result (Annotation * engine) :=
  let recur a st := _change_version_of_annotations self a version_dir st in
  match annotation with
  | ADict items =>
      let? (items', st') := for_each_item recur items [] st in
      Ok (ADict items', st')
  | AList items =>
      let? (items', st') := for_each recur items st in
      Ok (AList items', st')
  | ATuple items =>
      let? (items', st') := for_each recur items st in
      Ok (ATuple items', st')
  | AGenericAlias origin args =>
      cached annotation version_dir st (λ st,
        let? (args', st') := for_each recur args st in
        Ok (AGenericAlias origin args', st'))
  | ADepends _ dependency use_cache =>
      cached annotation version_dir st (λ st,
        let? (dependency', st') := recur dependency st in
        Ok (ADepends (next_id st') dependency' use_cache,
            mkEngine (cache st') (S (next_id st'))))
  | AUnionType args =>
      cached annotation version_dir st (λ st,
        let? (args', st') := for_each recur args st in
        Ok (AGenericAlias "typing.Union" args', st'))
  | AAny | ANewType _ =>
      cached annotation version_dir st (λ st, Ok (annotation, st))
  | AType cls =>
      cached annotation version_dir st (λ st,
        let? cls' := _change_version_of_type self cls version_dir in
        Ok (AType cls', st))
  | ACallable f =>
      cached annotation version_dir st (λ st,
        let new_id := next_id st in
        let st := mkEngine (cache st) (S (next_id st)) in
        let old_params := parameters (fn_signature f) in
        let callable_annotations := fn_annotations f in
        let? (new_annotations, st1) :=
          for_each_item recur callable_annotations [] st in
        let? (new_defaults, st2) :=
          for_each_default recur old_params st1 in
        let? new_signature :=
          _generate_signature str_key new_defaults new_annotations old_params in
        Ok (ACallable (mkFunction new_id (fn_name f) (fn_is_coroutine f)
                         new_annotations new_defaults new_signature
                         (Some annotation)), st2))
  | AOther _ =>
      cached annotation version_dir st (λ st, Ok (annotation, st))
  end.

End AnnotationTransformer.

(** ** Version changes *)

(** Modelled from the spec: an attribute change declares new values for
    attributes of a route. Its payload, [EndpointAttributesPayload] of
    [universi.structure.endpoints], is not among the files at hand; its
    fields are taken to be the attributes an [APIRoute] is made with, in
    this order, each [None] when it is left as [Sentinel]. [tags] is a
    list object, held by reference; [methods] is a set, as [route.methods]
    is; the other attributes hold scalars. The attributes that hold
    dictionaries, classes, callables or lists of routes ([responses],
    [response_class], [callbacks], [openapi_extra],
    [generate_unique_id_function]) are left out. *)
Record EndpointAttributesPayload := mkEndpointAttributesPayload {
  payload_path : option string;
  payload_response_model : option (option Annotation);
  payload_status_code : option attr_value;
  payload_tags : option nat;
  payload_dependencies : option (list Annotation);
  payload_summary : option attr_value;
  payload_description : option attr_value;
  payload_response_description : option attr_value;
  payload_deprecated : option attr_value;
  payload_methods : option (gset string);
  payload_operation_id : option attr_value;
  payload_include_in_schema : option attr_value;
  payload_name : option attr_value;
}.

(** The instructions of [universi.structure.endpoints]. *)
Inductive AlterEndpointInstruction :=
  | EndpointDidntExistInstruction (endpoint_path : string)
      (endpoint_methods : list string) (endpoint_func_name : option string)
  | EndpointExistedInstruction (endpoint_path : string)
      (endpoint_methods : list string) (endpoint_func_name : option string)
  | EndpointHadInstruction (endpoint_path : string)
      (endpoint_methods : list string) (endpoint_func_name : option string)
      (attributes : EndpointAttributesPayload)
  | EndpointWasInstruction (endpoint_path : string)
      (endpoint_methods : list string) (endpoint_func_name : option string)
      (get_old_endpoint : Function Annotation).

Definition endpoint_path (i : AlterEndpointInstruction) : string :=
  match i with
  | EndpointDidntExistInstruction p _ _ | EndpointExistedInstruction p _ _
  | EndpointHadInstruction p _ _ _ | EndpointWasInstruction p _ _ _ => p
  end.

Definition endpoint_methods (i : AlterEndpointInstruction) : list string :=
  match i with
  | EndpointDidntExistInstruction _ m _ | EndpointExistedInstruction _ m _
  | EndpointHadInstruction _ m _ _ | EndpointWasInstruction _ m _ _ => m
  end.

Definition endpoint_func_name (i : AlterEndpointInstruction) : option string :=
  match i with
  | EndpointDidntExistInstruction _ _ n | EndpointExistedInstruction _ _ n
  | EndpointHadInstruction _ _ n _ | EndpointWasInstruction _ _ n _ => n
  end.

(** A [VersionChange] class: its [__name__] and its endpoint instructions. *)
Record VersionChange := mkVersionChange {
  version_change_name : string;
  alter_endpoint_instructions : list AlterEndpointInstruction;
}.

Record Version := mkVersion {
  value : VersionDate;
  version_changes : list VersionChange;
}.

(** A [VersionBundle], iterated from the newest version to the oldest. *)
Abbreviation VersionBundle := (list Version).

(** ** Routers, routes and the object store *)

Definition _DELETED_ROUTE_TAG : string := "_UNIVERSI_DELETED_ROUTE".

(** An [APIRoute] object. [tags] is a reference to a list object, which
    [append] and [remove] change in place; [path] holds a scalar; [attrs]
    are the attributes the transformer reads and writes by name only, each
    a scalar. *)
Record APIRoute := mkAPIRoute {
  path : attr_value;
  methods : gset string;
  endpoint : Function Annotation;
  tags : nat;
  response_model : option Annotation;
  dependencies : list Annotation;
  attrs : gmap string attr_value;
}.

(** A route of a router: an [APIRoute] or some other [BaseRoute]. *)
Inductive BaseRoute :=
  | OtherRoute
  | IsAPIRoute (route : APIRoute).

#[export] Instance BaseRoute_inhabited : Inhabited BaseRoute := populate OtherRoute.

(** The objects derivation reads and writes, each kind in a store of its
    own and referred to by its index: routers (their [routes] lists),
    routes, and tag lists. [next_object] is the supply of identities for
    functions and [Depends] objects, [change_cache] the cache of the
    annotation transformer, [routes_that_never_existed] the list the
    endpoint transformer keeps. *)
Record world := mkWorld {
  router_store : list (list nat);
  route_store : list BaseRoute;
  taglist_store : list (list string);
  next_object : nat;
  change_cache : list (Annotation * Path * Annotation);
  routes_that_never_existed : list nat;
}.

Definition set_routers (w : world) (x : list (list nat)) : world :=
  mkWorld x (route_store w) (taglist_store w) (next_object w) (change_cache w)
    (routes_that_never_existed w).

Definition set_routes (w : world) (x : list BaseRoute) : world :=
  mkWorld (router_store w) x (taglist_store w) (next_object w) (change_cache w)
    (routes_that_never_existed w).

Definition set_taglists (w : world) (x : list (list string)) : world :=
  mkWorld (router_store w) (route_store w) x (next_object w) (change_cache w)
    (routes_that_never_existed w).

Definition set_engine (w : world) (st : engine) : world :=
  mkWorld (router_store w) (route_store w) (taglist_store w) (next_id st) (cache st)
    (routes_that_never_existed w).

Definition set_never_existed (w : world) (x : list nat) : world :=
  mkWorld (router_store w) (route_store w) (taglist_store w) (next_object w) (change_cache w) x.

Definition engine_of (w : world) : engine :=
  mkEngine (change_cache w) (next_object w).

Definition router_routes (w : world) (router : nat) : list nat :=
  router_store w !!! router.

Definition get_route (w : world) (l : nat) : BaseRoute := route_store w !!! l.

Definition get_tags (w : world) (t : nat) : list string := taglist_store w !!! t.

(** [_DELETED_ROUTE_TAG in route.tags]. *)
Definition has_deleted_tag (w : world) (route : APIRoute) : bool :=
  bool_decide (_DELETED_ROUTE_TAG ∈ get_tags w (tags route)).

(** [isinstance(route, APIRoute) and _DELETED_ROUTE_TAG in route.tags]. *)
Definition is_deleted_route (w : world) (l : nat) : bool :=
  match get_route w l with
  | OtherRoute => false
  | IsAPIRoute route => has_deleted_tag w route
  end.

(** The attributes of a route that an instruction reads and writes by
    name only, with their names. *)
Inductive plain_attribute :=
  | StatusCode
  | Summary
  | Description
  | ResponseDescription
  | Deprecated
  | OperationId
  | IncludeInSchema
  | Name.

Definition attribute_name (a : plain_attribute) : string :=
  match a with
  | StatusCode => "status_code"
  | Summary => "summary"
  | Description => "description"
  | ResponseDescription => "response_description"
  | Deprecated => "deprecated"
  | OperationId => "operation_id"
  | IncludeInSchema => "include_in_schema"
  | Name => "name"
  end.

(** A field of the payload that is not [Sentinel], with its value. *)
Inductive attribute :=
  | PathIs (attr : string)
  | ResponseModelIs (attr : option Annotation)
  | TagsAre (attr : nat)
  | DependenciesAre (attr : list Annotation)
  | MethodsAre (attr : gset string)
  | PlainIs (a : plain_attribute) (attr : attr_value).

Definition attr_name_of (a : attribute) : string :=
  match a with
  | PathIs _ => "path"
  | ResponseModelIs _ => "response_model"
  | TagsAre _ => "tags"
  | DependenciesAre _ => "dependencies"
  | MethodsAre _ => "methods"
  | PlainIs a _ => attribute_name a
  end.

(** The fields of the payload that are not [Sentinel], in the order of
    [__dataclass_fields__]. *)
Definition declared (attributes : EndpointAttributesPayload) : list attribute :=
  omap id
    [ PathIs <$> payload_path attributes;
      ResponseModelIs <$> payload_response_model attributes;
      PlainIs StatusCode <$> payload_status_code attributes;
      TagsAre <$> payload_tags attributes;
      DependenciesAre <$> payload_dependencies attributes;
      PlainIs Summary <$> payload_summary attributes;
      PlainIs Description <$> payload_description attributes;
      PlainIs ResponseDescription <$> payload_response_description attributes;
      PlainIs Deprecated <$> payload_deprecated attributes;
      MethodsAre <$> payload_methods attributes;
      PlainIs OperationId <$> payload_operation_id attributes;
      PlainIs IncludeInSchema <$> payload_include_in_schema attributes;
      PlainIs Name <$> payload_name attributes ].

(** [getattr(route, attr_name)] for the attributes read by name only. *)
Definition route_getattr (route : APIRoute) (a : plain_attribute)
  : option attr_value :=
  attrs route !! attribute_name a.

(** [getattr(route, attr_name) == attr]. Two lists are equal when they
    hold the same elements; [AttributeError] is for an attribute the
    route does not have. *)
Definition attribute_is_the_same (w : world) (route : APIRoute) (a : attribute)
  : result bool :=
  match a with
  | PathIs attr => Ok (py_eq (path route) (VStr attr))
  | ResponseModelIs attr => Ok (bool_decide (response_model route = attr))
  | TagsAre attr => Ok (bool_decide (get_tags w (tags route) = get_tags w attr))
  | DependenciesAre attr => Ok (bool_decide (dependencies route = attr))
  | MethodsAre attr => Ok (bool_decide (methods route = attr))
  | PlainIs a attr =>
      match route_getattr route a with
      | Some current => Ok (py_eq current attr)
      | None => Raise (AttributeError (attribute_name a))
      end
  end.

(** [setattr(route, attr_name, attr)]: the route holds the value itself,
    for [tags] the list object of the payload. *)
Definition route_setattr (route : APIRoute) (a : attribute) : APIRoute :=
  match a with
  | PathIs attr =>
      mkAPIRoute (VStr attr) (methods route) (endpoint route) (tags route)
        (response_model route) (dependencies route) (attrs route)
  | ResponseModelIs attr =>
      mkAPIRoute (path route) (methods route) (endpoint route) (tags route)
        attr (dependencies route) (attrs route)
  | TagsAre attr =>
      mkAPIRoute (path route) (methods route) (endpoint route) attr
        (response_model route) (dependencies route) (attrs route)
  | DependenciesAre attr =>
      mkAPIRoute (path route) (methods route) (endpoint route) (tags route)
        (response_model route) attr (attrs route)
  | MethodsAre attr =>
      mkAPIRoute (path route) attr (endpoint route) (tags route)
        (response_model route) (dependencies route) (attrs route)
  | PlainIs a attr =>
      mkAPIRoute (path route) (methods route) (endpoint route) (tags route)
        (response_model route) (dependencies route)
        (<[attribute_name a := attr]> (attrs route))
  end.

Definition set_endpoint (route : APIRoute) (f : Function Annotation) : APIRoute :=
  mkAPIRoute (path route) (methods route) f (tags route)
    (response_model route) (dependencies route) (attrs route).

Definition set_tags (route : APIRoute) (t : nat) : APIRoute :=
  mkAPIRoute (path route) (methods route) (endpoint route) t
    (response_model route) (dependencies route) (attrs route).

(** Starlette's [Route.__eq__], which [in] and [list.remove] use after the
    identity test: same path, same endpoint function, same methods. *)
Definition route_eq (w : world) (l1 l2 : nat) : bool :=
  bool_decide (l1 = l2)
  || match get_route w l1, get_route w l2 with
     | IsAPIRoute r1, IsAPIRoute r2 =>
         py_eq (path r1) (path r2)
         && bool_decide (fn_id (endpoint r1) = fn_id (endpoint r2))
         && bool_decide (methods r1 = methods r2)
     | _, _ => false
     end.

(** [x in l] and [l.remove(x)] on a list of routes. *)
Definition route_in (w : world) (x : nat) (l : list nat) : bool :=
  existsb (route_eq w x) l.

Fixpoint route_remove (w : world) (x : nat) (l : list nat) : list nat :=
  match l with
  | [] => []
  | y :: rest => if route_eq w x y then rest else y :: route_remove w x rest
  end.

(** [l.remove(x)] on a list of strings; [None] is the [ValueError] of an
    absent element. *)
Fixpoint list_remove_first (x : string) (l : list string) : option (list string) :=
  match l with
  | [] => None
  | y :: rest =>
      if decide (y = x) then Some rest
      else cons y <$> list_remove_first x rest
  end.

(** ** Looking routes up *)

(** The condition of [_get_routes] on one route. *)
Definition route_is_found (w : world) (endpoint_path : string)
    (endpoint_method_set : gset string) (endpoint_func_name : option string)
    (is_deleted : bool) (l : nat) : bool :=
  match get_route w l with
  | OtherRoute => false
  | IsAPIRoute route =>
      py_eq (path route) (VStr endpoint_path)
      && bool_decide (methods route ⊆ endpoint_method_set)
      && match endpoint_func_name with
         | None => true
         | Some name => bool_decide (fn_name (endpoint route) = name)
         end
      && bool_decide (has_deleted_tag w route = is_deleted)
  end.

Definition _get_routes (w : world) (routes : list nat) (endpoint_path : string)
    (endpoint_methods : list string) (endpoint_func_name : option string)
    (is_deleted : bool) : list nat :=
  let endpoint_method_set : gset string := list_to_set endpoint_methods in
  filter (λ l, route_is_found w endpoint_path endpoint_method_set
                 endpoint_func_name is_deleted l) routes.

Record _EndpointInfo := mkEndpointInfo {
  info_endpoint_path : attr_value;
  info_endpoint_methods : gset string;
}.

(** Equality of two [_EndpointInfo] keys of the route map. *)
Definition endpoint_info_eq (a b : _EndpointInfo) : bool :=
  py_eq (info_endpoint_path a) (info_endpoint_path b)
  && bool_decide (info_endpoint_methods a = info_endpoint_methods b).

Definition route_map_get (route_map : list (_EndpointInfo * nat))
    (route_info : _EndpointInfo) : option nat :=
  snd <$> find (λ kv, endpoint_info_eq (fst kv) route_info) route_map.

(** [_validate_no_repetitions_in_routes]: [Some (route, earlier)] are the
    routes the [RouteAlreadyExistsError] is raised with. *)
Fixpoint validate_no_repetitions (w : world) (routes : list nat)
    (route_map : list (_EndpointInfo * nat)) : option (nat * nat) :=
  match routes with
  | [] => None
  | l :: rest =>
      match get_route w l with
      | OtherRoute => validate_no_repetitions w rest route_map
      | IsAPIRoute route =>
          let route_info := mkEndpointInfo (path route) (methods route) in
          match route_map_get route_map route_info with
          | Some earlier => Some (l, earlier)
          | None => validate_no_repetitions w rest ((route_info, l) :: route_map)
          end
      end
  end.

Definition _validate_no_repetitions_in_routes (w : world) (routes : list nat)
  : option (nat * nat) :=
  validate_no_repetitions w routes [].

(** ** Attribute changes *)

(** The loop of [_apply_endpoint_had_instruction] over the fields that
    are not [Sentinel]: each must differ from the route's attribute and
    then overwrites it. *)
Fixpoint apply_attributes (version_change : string) (w : world)
    (attributes : list attribute) (original_route : APIRoute)
  : result APIRoute :=
  match attributes with
  | [] => Ok original_route
  | a :: rest =>
      let? same := attribute_is_the_same w original_route a in
      if (same : bool)
      then Raise (RouterGenerationError
             (AttributeIsTheSame (attr_name_of a) (methods original_route)
                (path original_route) version_change))
      else apply_attributes version_change w rest (route_setattr original_route a)
  end.

(** [_apply_endpoint_had_instruction], on the route object. *)
Definition _apply_endpoint_had_instruction (version_change : string) (w : world)
    (attributes : EndpointAttributesPayload) (original_route : APIRoute)
  : result APIRoute :=
  apply_attributes version_change w (declared attributes) original_route.

(** ** Deep copies *)

(** What [copy.deepcopy] has copied so far: the copy of each object. *)
Record copy_memo := mkMemo {
  copied_routes : gmap nat nat;
  copied_taglists : gmap nat nat;
  copied_depends : gmap nat Annotation;
}.

Definition empty_memo : copy_memo := mkMemo ∅ ∅ ∅.

(** A map over a list that threads a state from left to right. *)
Definition map_state {A B S} (f : A → S → B * S) : list A → S → list B * S :=
  fix go (l : list A) (st : S) : list B * S :=
    match l with
    | [] => ([], st)
    | x :: rest =>
        let '(y, st1) := f x st in
        let '(ys, st2) := go rest st1 in
        (y :: ys, st2)
    end.

(** [deepcopy] of a value reachable from a route: containers and
    [Depends] objects are copied (a [Depends] gets a new identity, once
    per object), functions and classes are not. *)
Fixpoint deepcopy_annotation (a : Annotation)
    (st : gmap nat Annotation * nat) {struct a}
  : Annotation * (gmap nat Annotation * nat) :=
  match a with
  | ADict items =>
      let '(items', st') :=
        map_state (λ kv st,
          let '(k, st1) := deepcopy_annotation (fst kv) st in
          let '(v, st2) := deepcopy_annotation (snd kv) st1 in
          ((k, v), st2)) items st in
      (ADict items', st')
  | AList items =>
      let '(items', st') := map_state deepcopy_annotation items st in
      (AList items', st')
  | ATuple items =>
      let '(items', st') := map_state deepcopy_annotation items st in
      (ATuple items', st')
  | AGenericAlias origin args =>
      let '(args', st') := map_state deepcopy_annotation args st in
      (AGenericAlias origin args', st')
  | ADepends id dependency use_cache =>
      match fst st !! id with
      | Some copy => (copy, st)
      | None =>
          let '(dependency', (memo, n)) := deepcopy_annotation dependency st in
          let copy := ADepends n dependency' use_cache in
          (copy, (<[id := copy]> memo, S n))
      end
  | AUnionType args =>
      let '(args', st') := map_state deepcopy_annotation args st in
      (AUnionType args', st')
  | AAny | ANewType _ | AType _ | ACallable _ | AOther _ => (a, st)
  end.

Definition deepcopy_taglist (w : world) (m : copy_memo) (t : nat)
  : world * copy_memo * nat :=
  match copied_taglists m !! t with
  | Some t' => (w, m, t')
  | None =>
      let t' := length (taglist_store w) in
      (set_taglists w (taglist_store w ++ [get_tags w t]),
       mkMemo (copied_routes m) (<[t := t']> (copied_taglists m)) (copied_depends m),
       t')
  end.

Definition deepcopy_route (w : world) (m : copy_memo) (l : nat)
  : world * copy_memo * nat :=
  match copied_routes m !! l with
  | Some l' => (w, m, l')
  | None =>
      match get_route w l with
      | OtherRoute =>
          let l' := length (route_store w) in
          (set_routes w (route_store w ++ [OtherRoute]),
           mkMemo (<[l := l']> (copied_routes m)) (copied_taglists m)
             (copied_depends m),
           l')
      | IsAPIRoute route =>
          let '(w1, m1, tags') := deepcopy_taglist w m (tags route) in
          let '(response_model', st1) :=
            match response_model route with
            | None => (None, (copied_depends m1, next_object w1))
            | Some a =>
                let '(a', st) :=
                  deepcopy_annotation a (copied_depends m1, next_object w1) in
                (Some a', st)
            end in
          let '(dependencies', (depends, n)) :=
            map_state deepcopy_annotation (dependencies route) st1 in
          let w2 := set_engine w1 (mkEngine (change_cache w1) n) in
          let l' := length (route_store w2) in
          (set_routes w2
             (route_store w2 ++
                [IsAPIRoute (mkAPIRoute (path route) (methods route)
                   (endpoint route) tags' response_model' dependencies'
                   (attrs route))]),
           mkMemo (<[l := l']> (copied_routes m1)) (copied_taglists m1) depends,
           l')
      end
  end.

Fixpoint deepcopy_routes (w : world) (m : copy_memo) (ls : list nat)
  : world * copy_memo * list nat :=
  match ls with
  | [] => (w, m, [])
  | l :: rest =>
      let '(w1, m1, l') := deepcopy_route w m l in
      let '(w2, m2, rest') := deepcopy_routes w1 m1 rest in
      (w2, m2, l' :: rest')
  end.

(** [deepcopy(router)]: the new router object, over copies of its routes. *)
Definition deepcopy (w : world) (router : nat) : world * nat :=
  let '(w', _, routes') := deepcopy_routes w empty_memo (router_routes w router) in
  (set_routers w' (router_store w' ++ [routes']), length (router_store w')).

(** ** The endpoint transformer *)

(** A loop over a list whose body may raise. *)
Definition for_loop {A S} (body : S → A → result S) : list A → S → result S :=
  fix go (l : list A) (st : S) : result S :=
    match l with
    | [] => Ok st
    | x :: rest => let? st1 := body st x in go rest st1
    end.

(** The union of the methods of some routes. *)
Definition method_union (w : world) (ls : list nat) : gset string :=
  foldl (λ acc l, match get_route w l with
                  | IsAPIRoute route => acc ∪ methods route
                  | OtherRoute => acc
                  end) ∅ ls.

(** [[r.endpoint.__name__ for r in routes]]. *)
Definition endpoint_names (w : world) (ls : list nat) : list string :=
  omap (λ l, match get_route w l with
             | IsAPIRoute route => Some (fn_name (endpoint route))
             | OtherRoute => None
             end) ls.

(** Modelled from the spec: [VersionBundle.versioned] is declared in
    [universi.structure.versions], which is not among the files at hand.
    The data-migration injector wraps the handler in a new asynchronous
    function that converts the request, calls the handler and converts
    the response; the wrapper keeps the handler's name and signature. *)
Definition versioned (endpoint : Function Annotation) (new_id : nat)
  : Function Annotation :=
  mkFunction new_id (fn_name endpoint) true (fn_annotations endpoint)
    (fn_defaults endpoint) (fn_signature endpoint) (Some (ACallable endpoint)).

(** [_add_data_migrations_to_route] on an [APIRoute];
    [is_async_callable] is the coroutine flag of the function. *)
Definition _add_data_migrations_to_route (route : APIRoute) (w : world)
  : result (APIRoute * world) :=
  if negb (fn_is_coroutine (endpoint route))
  then Raise (RouterGenerationError EndpointsMustBeAsync)
  else Ok (set_endpoint route (versioned (endpoint route) (next_object w)),
           set_engine w (mkEngine (change_cache w) (S (next_object w)))).

Definition _add_data_migrations_to_all_routes (router : nat) (w : world)
  : result world :=
  for_loop (λ w l,
      match get_route w l with
      | OtherRoute => Ok w
      | IsAPIRoute route =>
          let? (route', w') := _add_data_migrations_to_route route w in
          Ok (set_routes w' (<[l := IsAPIRoute route']> (route_store w')))
      end) (router_routes w router) w.

Section EndpointTransformer.

(** What the code generator and the file system provide:
    [universi._utils.get_another_version_of_cls],
    [universi.codegen._get_version_dir_path],
    [universi.codegen._get_package_path_from_module] and
    [Path.is_dir]. *)
Variable get_another_version_of_cls : pytype → Path → list Path → result pytype.
Variable _get_version_dir_path : ModuleType → VersionDate → Path.
Variable _get_package_path_from_module : ModuleType → Path.
Variable is_dir : Path → bool.

(** [_AnnotationTransformer.__init__]. *)
Definition new_AnnotationTransformer (latest_schemas_module : ModuleType)
    (versions : VersionBundle) : result _AnnotationTransformer :=
  if negb (has_path latest_schemas_module)
  then Raise (RouterGenerationError
         (NotAPackage (module_name latest_schemas_module)))
  else if negb (endswith ".latest" (module_name latest_schemas_module))
  then Raise (RouterGenerationError
         (NotNamedLatest (module_name latest_schemas_module)))
  else
    let package := _get_package_path_from_module latest_schemas_module in
    let dirs :=
      map (λ version, _get_version_dir_path latest_schemas_module (value version))
        versions in
    Ok (mkAnnotationTransformer latest_schemas_module (package :: dirs)
          (path_min package dirs) (path_max package dirs)).

(** [migrate_route_to_version] on the route object.
    [_remake_endpoint_dependencies] recomputes what FastAPI derives from
    the endpoint ([dependant], [body_field], [app]), none of which the
    transformer reads. *)
Definition migrate_route_to_version (self : _AnnotationTransformer)
    (route : APIRoute) (version_dir : Path) (ignore_response_model : bool)
    (st : engine) : result (APIRoute * engine) :=
  let change a st :=
    _change_version_of_annotations get_another_version_of_cls self a
      version_dir st in
  let? (response_model', st1) :=
    match response_model route with
    | Some a =>
        if negb ignore_response_model
        then let? (a', st') := change a st in Ok (Some a', st')
        else Ok (Some a, st)
    | None => Ok (None, st)
    end in
  let? (dependencies', st2) := change (AList (dependencies route)) st1 in
  let? (endpoint', st3) := change (ACallable (endpoint route)) st2 in
  Ok (mkAPIRoute (path route) (methods route)
        (match endpoint' with ACallable f => f | _ => endpoint route end)
        (tags route) response_model'
        (match dependencies' with AList l => l | _ => dependencies route end)
        (attrs route),
      st3).

Definition migrate_router_to_version (self : _AnnotationTransformer)
    (router : nat) (version : Version) (w : world) : result world :=
  let version_dir :=
    _get_version_dir_path (latest_schemas_module self) (value version) in
  if negb (is_dir version_dir)
  then Raise (RouterGenerationError (VersionDirDoesNotExist version_dir))
  else
    for_loop (λ w l,
        match get_route w l with
        | OtherRoute => Ok w
        | IsAPIRoute route =>
            let? (route', st) :=
              migrate_route_to_version self route version_dir false
                (engine_of w) in
            Ok (set_routes (set_engine w st)
                  (<[l := IsAPIRoute route']> (route_store w)))
        end) (router_routes w router) w.

(** The fields of an [_EndpointTransformer];
    [routes_that_never_existed] lives in the [world]. *)
Record _EndpointTransformer := mkEndpointTransformer {
  parent_router : nat;
  versions : VersionBundle;
  annotation_transformer : option _AnnotationTransformer;
}.

(** [_EndpointTransformer.__init__]. *)
Definition new_EndpointTransformer (parent_router : nat)
    (versions : VersionBundle) (latest_schemas_module : option ModuleType)
    (w : world) : result (_EndpointTransformer * world) :=
  let? annotation_transformer :=
    match latest_schemas_module with
    | Some m =>
        let? t := new_AnnotationTransformer m versions in Ok (Some t)
    | None => Ok None
    end in
  Ok (mkEndpointTransformer parent_router versions annotation_transformer,
      set_never_existed w
        (filter (λ l, is_deleted_route w l) (router_routes w parent_router))).

(** The body of the loop of [EndpointDidntExistInstruction]. *)
Definition delete_route (acc : world * gset string) (original_route : nat)
  : result (world * gset string) :=
  let '(w, methods_to_which_we_applied_changes) := acc in
  match get_route w original_route with
  | OtherRoute => Ok acc
  | IsAPIRoute route =>
      Ok (set_taglists w
            (<[tags route := get_tags w (tags route) ++ [_DELETED_ROUTE_TAG]]>
               (taglist_store w)),
          methods_to_which_we_applied_changes ∪ methods route)
  end.

(** The body of the loop of [EndpointExistedInstruction]. *)
Definition restore_route (acc : world * gset string) (deleted_route : nat)
  : result (world * gset string) :=
  let '(w, methods_to_which_we_applied_changes) := acc in
  match get_route w deleted_route with
  | OtherRoute => Ok acc
  | IsAPIRoute route =>
      match list_remove_first _DELETED_ROUTE_TAG (get_tags w (tags route)) with
      | None => Raise ValueError
      | Some tags' =>
          let w1 := set_taglists w (<[tags route := tags']> (taglist_store w)) in
          let w2 :=
            if route_in w1 deleted_route (routes_that_never_existed w1)
            then set_never_existed w1
                   (route_remove w1 deleted_route (routes_that_never_existed w1))
            else w1 in
          Ok (w2, methods_to_which_we_applied_changes ∪ methods route)
      end
  end.

(** The body of the loop of [EndpointHadInstruction]. *)
Definition change_route (version_change : VersionChange)
    (attributes : EndpointAttributesPayload)
    (acc : world * gset string) (original_route : nat)
  : result (world * gset string) :=
  let '(w, methods_to_which_we_applied_changes) := acc in
  match get_route w original_route with
  | OtherRoute => Ok acc
  | IsAPIRoute route =>
      let? route' :=
        _apply_endpoint_had_instruction (version_change_name version_change)
          w attributes route in
      Ok (set_routes w (<[original_route := IsAPIRoute route']> (route_store w)),
          methods_to_which_we_applied_changes ∪ methods route)
  end.

(** The body of the loop of [EndpointWasInstruction]. *)
Definition replace_handler (self : _EndpointTransformer) (version : Version)
    (old_endpoint : Function Annotation)
    (acc : world * gset string) (original_route : nat)
  : result (world * gset string) :=
  let '(w, methods_to_which_we_applied_changes) := acc in
  match get_route w original_route with
  | OtherRoute => Ok acc
  | IsAPIRoute route =>
      let applied := methods_to_which_we_applied_changes ∪ methods route in
      let route1 := set_endpoint route old_endpoint in
      let? (route2, w2) :=
        match annotation_transformer self with
        | Some transformer =>
            let version_dir :=
              _get_version_dir_path (latest_schemas_module transformer)
                (value version) in
            let? (route2, st) :=
              migrate_route_to_version transformer route1 version_dir true
                (engine_of w) in
            Ok (route2, set_engine w st)
        | None => Ok (route1, w)
        end in
      let? (route3, w3) := _add_data_migrations_to_route route2 w2 in
      Ok (set_routes w3 (<[original_route := IsAPIRoute route3]> (route_store w3)),
          applied)
  end.

(** What one instruction does to the routes, before the check of the
    methods: the new state, [methods_to_which_we_applied_changes] and
    the error to raise with the methods left out. *)
Definition instruction_effect (self : _EndpointTransformer) (version : Version)
    (version_change : VersionChange) (routes : list nat)
    (instruction : AlterEndpointInstruction) (w : world)
  : result (world * gset string *
            (gset string → string → string → generation_error)) :=
  let original_routes :=
    _get_routes w routes (endpoint_path instruction)
      (endpoint_methods instruction) (endpoint_func_name instruction) false in
  match instruction with
  | EndpointDidntExistInstruction _ _ _ =>
      let deleted_routes :=
        _get_routes w routes (endpoint_path instruction)
          (endpoint_methods instruction) (endpoint_func_name instruction) true in
      match deleted_routes with
      | _ :: _ =>
          Raise (RouterGenerationError
            (AlreadyDeleted (method_union w deleted_routes)
               (endpoint_path instruction) (version_change_name version_change)
               (endpoint_names w deleted_routes)))
      | [] =>
          let? (w', applied) := for_loop delete_route original_routes (w, ∅) in
          Ok (w', applied, DeletedDoesntExist)
      end
  | EndpointExistedInstruction _ _ _ =>
      match original_routes with
      | _ :: _ =>
          Raise (RouterGenerationError
            (AlreadyExisted (method_union w original_routes)
               (endpoint_path instruction) (version_change_name version_change)
               (endpoint_names w original_routes)))
      | [] =>
          let deleted_routes :=
            _get_routes w routes (endpoint_path instruction)
              (endpoint_methods instruction) (endpoint_func_name instruction)
              true in
          match _validate_no_repetitions_in_routes w deleted_routes with
          | Some (route, earlier) =>
              Raise (RouterGenerationError
                (DifferentApplicableRoutes
                   (list_to_set (endpoint_methods instruction))
                   (endpoint_path instruction)
                   (version_change_name version_change)
                   (endpoint_names w [route; earlier])))
          | None =>
              let? (w', applied) := for_loop restore_route deleted_routes (w, ∅) in
              Ok (w', applied, RestoredWasntDeleted)
          end
      end
  | EndpointHadInstruction _ _ _ attributes =>
      let? (w', applied) :=
        for_loop (change_route version_change attributes) original_routes (w, ∅) in
      Ok (w', applied, ChangedDoesntExist)
  | EndpointWasInstruction _ _ _ old_endpoint =>
      let? (w', applied) :=
        for_loop (replace_handler self version old_endpoint) original_routes
          (w, ∅) in
      Ok (w', applied, HandlerChangedDoesntExist)
  end.

(** One turn of the inner loop of [_apply_endpoint_changes_to_router]. *)
Definition apply_instruction (self : _EndpointTransformer) (version : Version)
    (version_change : VersionChange) (routes : list nat) (w : world)
    (instruction : AlterEndpointInstruction) : result world :=
  let methods_we_should_have_applied_changes_to : gset string :=
    list_to_set (endpoint_methods instruction) in
  let? (w', methods_to_which_we_applied_changes, err) :=
    instruction_effect self version version_change routes instruction w in
  let method_diff :=
    methods_we_should_have_applied_changes_to
      ∖ methods_to_which_we_applied_changes in
  if decide (method_diff = ∅) then Ok w'
  else Raise (RouterGenerationError
         (err method_diff (endpoint_path instruction)
            (version_change_name version_change))).

Definition _apply_endpoint_changes_to_router (self : _EndpointTransformer)
    (router : nat) (version : Version) (w : world) : result world :=
  let routes := router_routes w router in
  for_loop (λ w version_change,
      for_loop (apply_instruction self version version_change routes)
        (alter_endpoint_instructions version_change) w)
    (version_changes version) w.

(** The loop of [transform] over the versions still to come: [router] is
    the working router and [routers] the tables recorded so far. *)
Fixpoint transform_versions (self : _EndpointTransformer)
    (versions : list Version) (router : nat) (routers : gmap VersionDate nat)
    (w : world) : result (gmap VersionDate nat * world) :=
  match versions with
  | [] => Ok (routers, w)
  | version :: older =>
      let? w1 :=
        match annotation_transformer self with
        | Some transformer =>
            migrate_router_to_version transformer router version w
        | None => Ok w
        end in
      let routers' := <[value version := router]> routers in
      let '(w2, router') := deepcopy w1 router in
      let? w3 := _apply_endpoint_changes_to_router self router' version w2 in
      let w4 :=
        set_routers w3
          (<[router := filter (λ l, negb (is_deleted_route w3 l))
                         (router_routes w3 router)]> (router_store w3)) in
      transform_versions self older router' routers' w4
  end.

(** [_EndpointTransformer.transform]: the router of each version. *)
Definition transform (self : _EndpointTransformer) (w : world)
  : result (gmap VersionDate nat * world) :=
  let? (routers, w') :=
    transform_versions self (versions self) (parent_router self) ∅ w in
  match routes_that_never_existed w' with
  | _ :: _ =>
      Raise (RouterGenerationError
               (NeverRestored (routes_that_never_existed w')))
  | [] => Ok (routers, w')
  end.

(** [VersionedAPIRouter.create_versioned_copies]. *)
Definition create_versioned_copies (self : nat) (versions : VersionBundle)
    (latest_schemas_module : option ModuleType) (w : world)
  : result (gmap VersionDate nat * world) :=
  let? w1 := _add_data_migrations_to_all_routes self w in
  let? (transformer, w2) :=
    new_EndpointTransformer self versions latest_schemas_module w1 in
  transform transformer w2.

End EndpointTransformer.

(** * Properties *)

(** ** Induction over annotations *)

Section Annotation_induction.
Variable P : Annotation → Prop.
Hypothesis HDict :
  ∀ items, Forall (λ kv, P kv.1 ∧ P kv.2) items → P (ADict items).
Hypothesis HList : ∀ items, Forall P items → P (AList items).
Hypothesis HTuple : ∀ items, Forall P items → P (ATuple items).
Hypothesis HGenericAlias :
  ∀ origin args, Forall P args → P (AGenericAlias origin args).
Hypothesis HDepends :
  ∀ id dependency use_cache, P dependency → P (ADepends id dependency use_cache).
Hypothesis HUnionType : ∀ args, Forall P args → P (AUnionType args).
Hypothesis HAny : P AAny.
Hypothesis HNewType : ∀ name, P (ANewType name).
Hypothesis HType : ∀ cls, P (AType cls).
Hypothesis HCallable :
  ∀ f, Forall (λ kv, P kv.1 ∧ P kv.2) (fn_annotations f) →
       Forall (λ p, ∀ d, p_default p = Some d → P d)
         (parameters (fn_signature f)) →
       P (ACallable f).
Hypothesis HOther : ∀ v, P (AOther v).

Lemma Annotation_nested_ind : ∀ a, P a.
Proof.
  fix IH 1. intros a.
  assert (Hl : ∀ l : list Annotation, Forall P l).
  { fix IHl 1. intros [|x l]; constructor; [apply IH | apply IHl]. }
  assert (Hp : ∀ l : list (Annotation * Annotation),
             Forall (λ kv, P kv.1 ∧ P kv.2) l).
  { fix IHl 1. intros [|[k v] l]; constructor;
      [split; apply IH | apply IHl]. }
  destruct a as [items|items|items|origin args|id dep uc|args| | | |f|v].
  - apply HDict, Hp.
  - apply HList, Hl.
  - apply HTuple, Hl.
  - apply HGenericAlias, Hl.
  - apply HDepends, IH.
  - apply HUnionType, Hl.
  - apply HAny.
  - apply HNewType.
  - apply HType.
  - apply HCallable; [apply Hp |].
    destruct f as [? ? ? ? ? [ps ?] ?]; simpl.
    revert ps. fix IHl 1. intros [|[? ? [d|] ?] l]; constructor.
    + simpl. intros d' [= <-]. apply IH.
    + apply IHl.
    + simpl. intros d' [=].
    + apply IHl.
  - apply HOther.
Qed.
End Annotation_induction.

(** ** Loops that thread a state *)

Section state_loops.
Context {A B S : Type} (R : S → S → Prop) `{!Reflexive R, !Transitive R}.

(** A loop whose steps all move the state along [R] does so as a whole. *)
Lemma for_each_rel (f : A → S → result (B * S)) (l : list A) :
  Forall (λ x, ∀ st y st', f x st = Ok (y, st') → R st st') l →
  ∀ st ys st', for_each f l st = Ok (ys, st') → R st st'.
Proof.
  induction 1 as [|x l Hx _ IH]; intros st ys st' Hrun; simpl in Hrun.
  - injection Hrun as <- <-. reflexivity.
  - destruct (f x st) as [[y st1]|] eqn:Hf; [|discriminate].
    destruct (for_each f l st1) as [[ys' st2]|] eqn:Hl; [|discriminate].
    injection Hrun as <- <-. etransitivity; eauto.
Qed.

(** Running a loop again, in a state [R]-after the one it ended in,
    repeats its results and leaves the state alone, when each step does. *)
Lemma for_each_again (f : A → S → result (B * S)) (l : list A) :
  Forall (λ x, ∀ st y st', f x st = Ok (y, st') → R st st') l →
  Forall (λ x, ∀ st y st1, f x st = Ok (y, st1) →
               ∀ st2, R st1 st2 → f x st2 = Ok (y, st2)) l →
  ∀ st ys st1, for_each f l st = Ok (ys, st1) →
  ∀ st2, R st1 st2 → for_each f l st2 = Ok (ys, st2).
Proof.
  intros Hrel Hagain. induction Hagain as [|x l Hx _ IH];
    intros st ys st1 Hrun st2 HR; simpl in *.
  - injection Hrun as <- <-. reflexivity.
  - apply Forall_cons_1 in Hrel as [Hrx Hrl].
    destruct (f x st) as [[y sta]|] eqn:Hf; [|discriminate].
    destruct (for_each f l sta) as [[ys' stb]|] eqn:Hl; [|discriminate].
    injection Hrun as <- <-.
    assert (R sta st2) as Ha.
    { etransitivity; [|exact HR]. eapply for_each_rel; eauto. }
    rewrite (Hx _ _ _ Hf _ Ha).
    rewrite (IH Hrl _ _ _ Hl _ HR). reflexivity.
Qed.

Lemma for_each_length (f : A → S → result (B * S)) (l : list A) st ys st' :
  for_each f l st = Ok (ys, st') → length ys = length l.
Proof.
  revert st ys st'. induction l as [|x l IH]; intros st ys st' Hrun; simpl in *.
  - by injection Hrun as <- <-.
  - destruct (f x st) as [[y st1]|]; [|discriminate].
    destruct (for_each f l st1) as [[ys' st2]|] eqn:Hl; [|discriminate].
    injection Hrun as <- <-. simpl. f_equal. eauto.
Qed.
End state_loops.

Section item_loops.
Context {A S : Type} `{EqDecision A} (R : S → S → Prop)
  `{!Reflexive R, !Transitive R}.

Lemma for_each_item_rel (f : A → S → result (A * S)) (l : list (A * A)) :
  Forall (λ kv, (∀ st y st', f kv.1 st = Ok (y, st') → R st st') ∧
                (∀ st y st', f kv.2 st = Ok (y, st') → R st st')) l →
  ∀ acc st d st', for_each_item f l acc st = Ok (d, st') → R st st'.
Proof.
  induction 1 as [|[k v] l [Hk Hv] _ IH]; intros acc st d st' Hrun;
    simpl in *.
  - injection Hrun as <- <-. reflexivity.
  - destruct (f k st) as [[k' st1]|] eqn:Hfk; [|discriminate].
    destruct (f v st1) as [[v' st2]|] eqn:Hfv; [|discriminate].
    etransitivity; [eapply Hk; eauto|].
    etransitivity; [eapply Hv; eauto|]. eauto.
Qed.

Lemma for_each_item_again (f : A → S → result (A * S)) (l : list (A * A)) :
  Forall (λ kv, (∀ st y st', f kv.1 st = Ok (y, st') → R st st') ∧
                (∀ st y st', f kv.2 st = Ok (y, st') → R st st')) l →
  Forall (λ kv,
    (∀ st y st1, f kv.1 st = Ok (y, st1) →
       ∀ st2, R st1 st2 → f kv.1 st2 = Ok (y, st2)) ∧
    (∀ st y st1, f kv.2 st = Ok (y, st1) →
       ∀ st2, R st1 st2 → f kv.2 st2 = Ok (y, st2))) l →
  ∀ acc st d st1, for_each_item f l acc st = Ok (d, st1) →
  ∀ st2, R st1 st2 → for_each_item f l acc st2 = Ok (d, st2).
Proof.
  intros Hrel Hagain. induction Hagain as [|[k v] l [Hk Hv] _ IH];
    intros acc st d st1 Hrun st2 HR; simpl in *.
  - injection Hrun as <- <-. reflexivity.
  - apply Forall_cons_1 in Hrel as [[Hrk Hrv] Hrl]. simpl in *.
    destruct (f k st) as [[k' sta]|] eqn:Hfk; [|discriminate].
    destruct (f v sta) as [[v' stb]|] eqn:Hfv; [|discriminate].
    assert (R stb st2) as Hb.
    { etransitivity; [|exact HR]. eapply for_each_item_rel; eauto. }
    assert (R sta st2) as Ha by (etransitivity; [eapply Hrv|]; eauto).
    rewrite (Hk _ _ _ Hfk _ Ha), (Hv _ _ _ Hfv _ Hb). eauto.
Qed.
End item_loops.

Section default_loops.
Context {A S : Type} (R : S → S → Prop) `{!Reflexive R, !Transitive R}.

Lemma for_each_default_rel (f : A → S → result (A * S)) (l : list (Param A)) :
  Forall (λ p, ∀ d, p_default p = Some d →
               ∀ st y st', f d st = Ok (y, st') → R st st') l →
  ∀ st ys st', for_each_default f l st = Ok (ys, st') → R st st'.
Proof.
  induction 1 as [|p l Hp _ IH]; intros st ys st' Hrun; simpl in *.
  - injection Hrun as <- <-. reflexivity.
  - destruct (p_default p) as [d|] eqn:Hd; [|eauto].
    destruct (f d st) as [[y st1]|] eqn:Hf; [|discriminate].
    destruct (for_each_default f l st1) as [[ys' st2]|] eqn:Hl; [|discriminate].
    injection Hrun as <- <-. etransitivity; eauto.
Qed.

Lemma for_each_default_again (f : A → S → result (A * S)) (l : list (Param A)) :
  Forall (λ p, ∀ d, p_default p = Some d →
               ∀ st y st', f d st = Ok (y, st') → R st st') l →
  Forall (λ p, ∀ d, p_default p = Some d →
               ∀ st y st1, f d st = Ok (y, st1) →
               ∀ st2, R st1 st2 → f d st2 = Ok (y, st2)) l →
  ∀ st ys st1, for_each_default f l st = Ok (ys, st1) →
  ∀ st2, R st1 st2 → for_each_default f l st2 = Ok (ys, st2).
Proof.
  intros Hrel Hagain. induction Hagain as [|p l Hp _ IH];
    intros st ys st1 Hrun st2 HR; simpl in *.
  - injection Hrun as <- <-. reflexivity.
  - apply Forall_cons_1 in Hrel as [Hrp Hrl].
    destruct (p_default p) as [d|] eqn:Hd; [|eauto].
    destruct (f d st) as [[y sta]|] eqn:Hf; [|discriminate].
    destruct (for_each_default f l sta) as [[ys' stb]|] eqn:Hl; [|discriminate].
    injection Hrun as <- <-.
    assert (R sta st2) as Ha.
    { etransitivity; [|exact HR]. eapply for_each_default_rel; eauto. }
    rewrite (Hp _ eq_refl _ _ _ Hf _ Ha).
    rewrite (IH Hrl _ _ _ Hl _ HR). reflexivity.
Qed.

(** The fused loop is the loop over the defaults. *)
Lemma for_each_default_defaults_of (f : A → S → result (A * S)) l st :
  for_each_default f l st = for_each f (defaults_of l) st.
Proof.
  revert st. induction l as [|p l IH]; intros st; simpl; [done|].
  unfold defaults_of in *. simpl. destruct (p_default p) as [d|]; simpl; [|done].
  destruct (f d st) as [[y st1]|]; [|done]. by rewrite IH.
Qed.
End default_loops.

(** ** The cache of the annotation transformer *)

(** Every entry of the first cache is found, unchanged, in the second. *)
Definition cache_extends (st st' : engine) : Prop :=
  ∀ a d v, cache_get (cache st) a d = Some v → cache_get (cache st') a d = Some v.

#[export] Instance cache_extends_refl : Reflexive cache_extends.
Proof. by intros st a d v. Qed.

#[export] Instance cache_extends_trans : Transitive cache_extends.
Proof. intros x y z Hxy Hyz a d v H. by apply Hyz, Hxy. Qed.

Lemma cache_get_cons k d v c a d' :
  cache_get ((k, d, v) :: c) a d' =
  if decide ((k, d) = (a, d')) then Some v else cache_get c a d'.
Proof. reflexivity. Qed.

Lemma cached_inv a d st compute v st' :
  cached a d st compute = Ok (v, st') →
  (cache_get (cache st) a d = Some v ∧ st' = st) ∨
  (cache_get (cache st) a d = None ∧
   ∃ st1, compute st = Ok (v, st1) ∧
          st' = mkEngine ((a, d, v) :: cache st1) (next_id st1)).
Proof.
  unfold cached. destruct (cache_get (cache st) a d) as [hit|] eqn:Hget.
  - intros [= <- <-]. by left.
  - destruct (compute st) as [[v1 st1]|] eqn:Hc; [|discriminate].
    intros [= <- <-]. right. eauto.
Qed.

Lemma cached_hit a d st compute v :
  cache_get (cache st) a d = Some v → cached a d st compute = Ok (v, st).
Proof. unfold cached. by intros ->. Qed.

Lemma cached_stored a d st compute v st' :
  cached a d st compute = Ok (v, st') → cache_get (cache st') a d = Some v.
Proof.
  intros [[? ->]|(_ & st1 & _ & ->)]%cached_inv; [done|].
  simpl. rewrite cache_get_cons. by rewrite decide_True.
Qed.

Lemma cached_extends a d st compute v st' :
  (∀ v1 st1, compute st = Ok (v1, st1) → cache_extends st st1) →
  cached a d st compute = Ok (v, st') → cache_extends st st'.
Proof.
  intros Hc [[? ->]|(Hnone & st1 & Hrun & ->)]%cached_inv; [reflexivity|].
  intros a0 d0 v0 Hget. simpl. rewrite cache_get_cons.
  destruct (decide ((a, d) = (a0, d0))) as [[= <- <-]|_]; [congruence|].
  eapply Hc; eauto.
Qed.

Lemma cached_again a d st compute compute' v st1 st2 :
  cached a d st compute = Ok (v, st1) → cache_extends st1 st2 →
  cached a d st2 compute' = Ok (v, st2).
Proof. intros Hrun Hext. by apply cached_hit, Hext, (cached_stored _ _ _ _ _ _ Hrun). Qed.

Section retargeting.
Variable get_another_version_of_cls : pytype → Path → list Path → result pytype.
Variable self : _AnnotationTransformer.
Variable version_dir : Path.

Let change (a : Annotation) (st : engine) :=
  _change_version_of_annotations get_another_version_of_cls self a version_dir st.

(** Retargeting only ever adds entries to the cache. *)
Lemma change_extends a :
  ∀ st v st', change a st = Ok (v, st') → cache_extends st st'.
Proof.
  unfold change.
  induction a as [items IH|items IH|items IH|origin args IH|id dep uc IH|args IH
                 | | | |f IHa IHp|v0] using Annotation_nested_ind;
    intros st v st' Hrun; simpl in Hrun.
  - destruct (for_each_item _ items [] st) as [[d st1]|] eqn:Hl; [|discriminate].
    injection Hrun as <- <-.
    eapply (for_each_item_rel cache_extends); [|exact Hl].
    eapply Forall_impl; [exact IH|]. intros [k x] [Hk Hx]; split; eauto.
  - destruct (for_each _ items st) as [[d st1]|] eqn:Hl; [|discriminate].
    injection Hrun as <- <-. exact (for_each_rel cache_extends _ _ IH _ _ _ Hl).
  - destruct (for_each _ items st) as [[d st1]|] eqn:Hl; [|discriminate].
    injection Hrun as <- <-. exact (for_each_rel cache_extends _ _ IH _ _ _ Hl).
  - eapply cached_extends; [|exact Hrun]. intros v1 st1 Hc; cbv beta in Hc.
    destruct (for_each _ args st) as [[d st2]|] eqn:Hl; [|discriminate].
    injection Hc as <- <-. exact (for_each_rel cache_extends _ _ IH _ _ _ Hl).
  - eapply cached_extends; [|exact Hrun]. intros v1 st1 Hc; cbv beta in Hc.
    destruct (_change_version_of_annotations _ _ dep _ st) as [[d st2]|] eqn:Hl;
      [|discriminate].
    injection Hc as <- <-. intros a0 d0 v0 Hget. simpl. eapply IH; eauto.
  - eapply cached_extends; [|exact Hrun]. intros v1 st1 Hc; cbv beta in Hc.
    destruct (for_each _ args st) as [[d st2]|] eqn:Hl; [|discriminate].
    injection Hc as <- <-. exact (for_each_rel cache_extends _ _ IH _ _ _ Hl).
  - eapply cached_extends; [|exact Hrun]. by intros v1 st1 [= <- <-].
  - eapply cached_extends; [|exact Hrun]. by intros v1 st1 [= <- <-].
  - eapply cached_extends; [|exact Hrun]. intros v1 st1 Hc; cbv beta in Hc.
    destruct (_change_version_of_type _ _ _ _) as [c|]; [|discriminate].
    by injection Hc as <- <-.
  - eapply cached_extends; [|exact Hrun]. intros v1 st1 Hc; cbv beta in Hc.
    destruct (for_each_item _ (fn_annotations f) [] _) as [[na sta]|] eqn:Hla;
      [|discriminate].
    destruct (for_each_default _ _ sta) as [[nd stb]|] eqn:Hld; [|discriminate].
    destruct (_generate_signature _ _ _ _) as [sig|]; [|discriminate].
    injection Hc as <- <-.
    transitivity sta.
    + apply (for_each_item_rel cache_extends) in Hla.
      * intros a0 d0 v0 Hget. by apply Hla.
      * eapply Forall_impl; [exact IHa|]. intros [k x] [Hk Hx]; split; eauto.
    + eapply (for_each_default_rel cache_extends); [|exact Hld].
      eapply Forall_impl; [exact IHp|]. intros p Hp d Hd. eauto.
  - eapply cached_extends; [|exact Hrun]. by intros v1 st1 [= <- <-].
Qed.

(** A second retargeting of the same value, any time after the first,
    returns what the first returned and leaves the state as it is. *)
Lemma change_again a :
  ∀ st v st1, change a st = Ok (v, st1) →
  ∀ st2, cache_extends st1 st2 → change a st2 = Ok (v, st2).
Proof.
  unfold change.
  induction a as [items IH|items IH|items IH|origin args IH|id dep uc IH|args IH
                 | | | |f IHa IHp|v0] using Annotation_nested_ind;
    intros st v st1 Hrun st2 Hext; simpl in Hrun |- *;
    try (eapply cached_again; eauto; fail).
  - destruct (for_each_item _ items [] st) as [[d sta]|] eqn:Hl; [|discriminate].
    injection Hrun as <- <-.
    assert (Hrel : Forall (λ kv : Annotation * Annotation,
              (∀ st y st', change kv.1 st = Ok (y, st') → cache_extends st st') ∧
              (∀ st y st', change kv.2 st = Ok (y, st') → cache_extends st st'))
              items).
    { apply Forall_forall. intros [k x] Hin; split; apply change_extends. }
    pose proof (for_each_item_again cache_extends _ _ Hrel IH _ _ _ _ Hl _ Hext) as Hr.
    unfold change in Hr. by rewrite Hr.
  - destruct (for_each _ items st) as [[d sta]|] eqn:Hl; [|discriminate].
    injection Hrun as <- <-.
    assert (Hrel : Forall (λ x,
              ∀ st y st', change x st = Ok (y, st') → cache_extends st st') items).
    { apply Forall_forall. intros x Hin. apply change_extends. }
    pose proof (for_each_again cache_extends _ _ Hrel IH _ _ _ Hl _ Hext) as Hr.
    unfold change in Hr. by rewrite Hr.
  - destruct (for_each _ items st) as [[d sta]|] eqn:Hl; [|discriminate].
    injection Hrun as <- <-.
    assert (Hrel : Forall (λ x,
              ∀ st y st', change x st = Ok (y, st') → cache_extends st st') items).
    { apply Forall_forall. intros x Hin. apply change_extends. }
    pose proof (for_each_again cache_extends _ _ Hrel IH _ _ _ Hl _ Hext) as Hr.
    unfold change in Hr. by rewrite Hr.
Qed.

End retargeting.

(** ** Signatures *)

(** What [_generate_signature] keeps of a parameter and what it takes
    from the new callable; [retargeted d d'] relates an old default to the
    new one. *)
Definition parameter_kept {A} `{EqDecision A} (key_of : string → A)
    (retargeted : A → A → Prop) (new_annotations : list (A * A))
    (old new : Param A) : Prop :=
  p_name new = p_name old ∧
  p_kind new = p_kind old ∧
  match p_default old, p_default new with
  | None, None => True
  | Some d, Some d' => retargeted d d'
  | _, _ => False
  end ∧
  p_annotation new = dict_get new_annotations (key_of (p_name old)).

Section generate_signature.
Context {A St : Type} `{EqDecision A}.
Variable key_of : string → A.
Variable f : A → St → result (A * St).
Variable new_annotations : list (A * A).

Let retargeted (d d' : A) : Prop := ∃ st st', f d st = Ok (d', st').

(** With the defaults produced from the old parameters, the parameters
    are generated without an [IndexError]; names, kinds and order are
    those of the old ones and each default is the new value of the old. *)
Lemma generate_parameters_kept (old_params : list (Param A)) :
  ∀ pre new_defaults st st',
    for_each f (defaults_of old_params) st = Ok (new_defaults, st') →
    ∃ ps, generate_parameters key_of (pre ++ new_defaults) new_annotations
            old_params (length pre) = Ok ps ∧
          Forall2 (parameter_kept key_of retargeted new_annotations)
            old_params ps.
Proof.
  induction old_params as [|p rest IH]; intros pre defs st st' Hrun.
  - exists []. split; [done | constructor].
  - unfold defaults_of in Hrun. simpl in Hrun |- *.
    destruct (p_default p) as [d|] eqn:Hd; simpl in Hrun.
    + destruct (f d st) as [[d' st1]|] eqn:Hf; [|discriminate].
      change (list_omap _ _ p_default rest) with (defaults_of rest) in Hrun.
      destruct (for_each f (defaults_of rest) st1) as [[ds st2]|] eqn:Hl;
        [|discriminate].
      injection Hrun as <- <-.
      rewrite list_lookup_middle by done.
      destruct (IH (pre ++ [d']) ds st1 st2 Hl) as (ps & Hps & Hall).
      rewrite <- app_assoc, length_app, Nat.add_1_r in Hps. simpl in Hps.
      rewrite Hps. eexists; split; [done|]. constructor; [|done].
      repeat split; simpl; try done. rewrite Hd. by exists st, st1.
    + destruct (IH pre defs st st' Hrun) as (ps & Hps & Hall).
      rewrite Hps. eexists; split; [done|]. constructor; [|done].
      repeat split; simpl; try done. by rewrite Hd.
Qed.

Lemma _generate_signature_kept (old_params : list (Param A)) new_defaults st st' :
  for_each f (defaults_of old_params) st = Ok (new_defaults, st') →
  ∃ ps, _generate_signature key_of new_defaults new_annotations old_params
          = Ok (mkSignature ps (dict_get new_annotations (key_of "return"))) ∧
        Forall2 (parameter_kept key_of retargeted new_annotations)
          old_params ps.
Proof.
  intros Hrun.
  destruct (generate_parameters_kept old_params [] _ _ _ Hrun) as (ps & Hps & Hall).
  exists ps. split; [|done]. unfold _generate_signature.
  simpl in Hps. by rewrite Hps.
Qed.
End generate_signature.

Lemma parameter_kept_names {A} `{EqDecision A} key_of (R : A → A → Prop) anns
    (old new : list (Param A)) :
  Forall2 (parameter_kept key_of R anns) old new →
  map p_name new = map p_name old ∧ map p_kind new = map p_kind old ∧
  map (λ p, bool_decide (is_Some (p_default p))) new
    = map (λ p, bool_decide (is_Some (p_default p))) old.
Proof.
  induction 1 as [|p q old new (Hn & Hk & Hd & _) _ (IHn & IHk & IHd)]; [done|].
  simpl. rewrite Hn, Hk, IHn, IHk, IHd. repeat split.
  f_equal. destruct (p_default p), (p_default q); try done.
Qed.

Section signatures_kept.
Variable get_another_version_of_cls : pytype → Path → list Path → result pytype.
Variable self : _AnnotationTransformer.

Let change (d : Path) (a : Annotation) (st : engine) :=
  _change_version_of_annotations get_another_version_of_cls self a d st.

(** [y] is what retargeting [x] to [d] returned in some state. *)
Definition retargeted (d : Path) (x y : Annotation) : Prop :=
  ∃ st st', change d x st = Ok (y, st').

(** [v] is a callable made from [f] for the version directory [d]: the
    same name and kind of function; parameter for parameter the same
    name and kind, a default exactly where [f] has one, which is the
    retargeted old default; annotations read from the retargeted
    [__annotations__]. *)
Definition signature_kept (d : Path) (f : Function Annotation) (v : Annotation)
  : Prop :=
  ∃ f', v = ACallable f' ∧
    fn_name f' = fn_name f ∧
    fn_is_coroutine f' = fn_is_coroutine f ∧
    Forall2 (parameter_kept str_key (retargeted d) (fn_annotations f'))
      (parameters (fn_signature f)) (parameters (fn_signature f')) ∧
    return_annotation (fn_signature f')
      = dict_get (fn_annotations f') (str_key "return") ∧
    (∃ st st', for_each_item (change d) (fn_annotations f) [] st
               = Ok (fn_annotations f', st')).

(** The entries of the cache for callables are callables made from them. *)
Definition cache_ok (st : engine) : Prop :=
  ∀ f d v, cache_get (cache st) (ACallable f) d = Some v → signature_kept d f v.

Lemma cache_ok_empty n : cache_ok (mkEngine [] n).
Proof. intros f d v [=]. Qed.

Let keeps (st st' : engine) : Prop := cache_ok st → cache_ok st'.

Local Instance keeps_refl : Reflexive keeps.
Proof. intros st H. exact H. Qed.

Local Instance keeps_trans : Transitive keeps.
Proof. intros x y z Hxy Hyz H. apply Hyz, Hxy, H. Qed.

Lemma cached_kept a d st compute v st' :
  cache_ok st →
  (∀ v1 st1, compute st = Ok (v1, st1) →
     cache_ok st1 ∧ (∀ f, a = ACallable f → signature_kept d f v1)) →
  cached a d st compute = Ok (v, st') →
  cache_ok st' ∧ (∀ f, a = ACallable f → signature_kept d f v).
Proof.
  intros Hok Hc [[Hhit ->]|(Hnone & st1 & Hrun & ->)]%cached_inv.
  - split; [done|]. intros f ->. by apply Hok.
  - destruct (Hc _ _ Hrun) as [Hok1 Hv]. split; [|done].
    intros f0 d0 v0. simpl. rewrite cache_get_cons.
    destruct (decide ((a, d) = (ACallable f0, d0))) as [[= -> ->]|_].
    + intros [= <-]. by apply Hv.
    + apply Hok1.
Qed.

Lemma change_kept d a :
  ∀ st v st', cache_ok st → change d a st = Ok (v, st') →
  cache_ok st' ∧ (∀ f, a = ACallable f → signature_kept d f v).
Proof.
  unfold change.
  induction a as [items IH|items IH|items IH|origin args IH|id dep uc IH|args IH
                 | | | |f IHa IHp|v0] using Annotation_nested_ind;
    intros st v st' Hok Hrun; simpl in Hrun.
  - destruct (for_each_item _ items [] st) as [[d0 st1]|] eqn:Hl; [|discriminate].
    injection Hrun as <- <-. split; [|done].
    eapply (for_each_item_rel keeps); [|exact Hl|exact Hok].
    eapply Forall_impl; [exact IH|].
    intros [k x] [Hk Hx]; split; intros ? ? ? Hr ?;
      [eapply Hk | eapply Hx]; eauto.
  - destruct (for_each _ items st) as [[d0 st1]|] eqn:Hl; [|discriminate].
    injection Hrun as <- <-. split; [|done].
    eapply (for_each_rel keeps); [|exact Hl|exact Hok].
    eapply Forall_impl; [exact IH|]. intros x Hx ? ? ? Hr ?. eapply Hx; eauto.
  - destruct (for_each _ items st) as [[d0 st1]|] eqn:Hl; [|discriminate].
    injection Hrun as <- <-. split; [|done].
    eapply (for_each_rel keeps); [|exact Hl|exact Hok].
    eapply Forall_impl; [exact IH|]. intros x Hx ? ? ? Hr ?. eapply Hx; eauto.
  - eapply cached_kept; [exact Hok| |exact Hrun]. intros v1 st1 Hc; cbv beta in Hc.
    destruct (for_each _ args st) as [[d0 st2]|] eqn:Hl; [|discriminate].
    injection Hc as <- <-. split; [|done].
    eapply (for_each_rel keeps); [|exact Hl|exact Hok].
    eapply Forall_impl; [exact IH|]. intros x Hx ? ? ? Hr ?. eapply Hx; eauto.
  - eapply cached_kept; [exact Hok| |exact Hrun]. intros v1 st1 Hc; cbv beta in Hc.
    destruct (_change_version_of_annotations _ _ dep _ st) as [[d0 st2]|] eqn:Hl;
      [|discriminate].
    injection Hc as <- <-. split; [|done].
    destruct (IH _ _ _ Hok Hl) as [Hok2 _]. intros f0 d1 v0. apply Hok2.
  - eapply cached_kept; [exact Hok| |exact Hrun]. intros v1 st1 Hc; cbv beta in Hc.
    destruct (for_each _ args st) as [[d0 st2]|] eqn:Hl; [|discriminate].
    injection Hc as <- <-. split; [|done].
    eapply (for_each_rel keeps); [|exact Hl|exact Hok].
    eapply Forall_impl; [exact IH|]. intros x Hx ? ? ? Hr ?. eapply Hx; eauto.
  - eapply cached_kept; [exact Hok| |exact Hrun]. by intros v1 st1 [= <- <-].
  - eapply cached_kept; [exact Hok| |exact Hrun]. by intros v1 st1 [= <- <-].
  - eapply cached_kept; [exact Hok| |exact Hrun]. intros v1 st1 Hc; cbv beta in Hc.
    destruct (_change_version_of_type _ _ _ _) as [c|]; [|discriminate].
    by injection Hc as <- <-.
  - eapply cached_kept; [exact Hok| |exact Hrun]. intros v1 st1 Hc; cbv beta in Hc.
    destruct (for_each_item _ (fn_annotations f) [] _) as [[na sta]|] eqn:Hla;
      [|discriminate].
    destruct (for_each_default _ _ sta) as [[nd stb]|] eqn:Hld; [|discriminate].
    assert (cache_ok sta) as Hoka.
    { eapply (for_each_item_rel keeps); [|exact Hla|exact Hok].
      eapply Forall_impl; [exact IHa|].
      intros [k x] [Hk Hx]; split; intros ? ? ? Hr ?;
        [eapply Hk | eapply Hx]; eauto. }
    assert (cache_ok stb) as Hokb.
    { eapply (for_each_default_rel keeps); [|exact Hld|exact Hoka].
      eapply Forall_impl; [exact IHp|].
      intros p Hp d0 Hd ? ? ? Hr ?. eapply Hp; eauto. }
    rewrite for_each_default_defaults_of in Hld.
    destruct (_generate_signature_kept str_key _ na _ _ _ _ Hld)
      as (ps & Hsig & Hall).
    rewrite Hsig in Hc. injection Hc as <- <-. split; [done|].
    intros f0 [= <-]. eexists; split; [done|]. simpl.
    repeat split; try done. eauto.
  - eapply cached_kept; [exact Hok| |exact Hrun]. by intros v1 st1 [= <- <-].
Qed.

End signatures_kept.

(** ** Example data *)

Module Examples.

Definition latest_module : ModuleType := mkModule "app.schemas.latest" true.

Definition package_path (m : ModuleType) : Path := ["app"; "schemas"; "latest"].

Definition version_dir_path (m : ModuleType) (v : VersionDate) : Path :=
  ["app"; "schemas"; String.append "v" v].

(** The class of the same name in the files of [d]. *)
Definition resolver (cls : pytype) (d : Path) (dirs : list Path) : result pytype :=
  Ok (mkType (cls_name cls) (is_schema cls)
        (Some (String.append (path_str d) "/__init__.py"))).

Definition two_versions : VersionBundle :=
  [mkVersion "2023-02-01" []; mkVersion "2023-01-01" []].

Definition transformer : _AnnotationTransformer :=
  mkAnnotationTransformer latest_module
    [package_path latest_module;
     version_dir_path latest_module "2023-02-01";
     version_dir_path latest_module "2023-01-01"]
    (package_path latest_module)
    (version_dir_path latest_module "2023-02-01").

Definition Item : pytype :=
  mkType "Item" true (Some "/app/schemas/latest/__init__.py").

(** A class written in the directory of version 2023-01-01. *)
Definition OldItem : pytype :=
  mkType "OldItem" true (Some "/app/schemas/v2023-01-01/__init__.py").

Definition int : pytype := mkType "int" false None.

(** [async def get_item(item_id: int, q: Item = Item.default) -> Item]. *)
Definition get_item : Function Annotation :=
  mkFunction 0 "get_item" true
    [(str_key "item_id", AType int); (str_key "q", AType Item);
     (str_key "return", AType Item)]
    [AOther (VStr "default")]
    (mkSignature
       [mkParam "item_id" POSITIONAL_OR_KEYWORD None (Some (AType int));
        mkParam "q" KEYWORD_ONLY (Some (AOther (VStr "default")))
          (Some (AType Item))]
       (Some (AType Item)))
    None.

Definition fresh_engine : engine := mkEngine [] 1.

Definition change (a : Annotation) (d : Path) (st : engine) :=
  _change_version_of_annotations resolver transformer a d st.

Definition older_dir : Path := version_dir_path latest_module "2023-01-01".

(** [get_item] retargeted to the older version, and the state after. *)
Definition first_result : Annotation * engine :=
  Eval vm_compute in
    match change (ACallable get_item) older_dir fresh_engine with
    | Ok r => r
    | Raise _ => (AAny, fresh_engine)
    end.

(** The result retargeted once more to the same version. *)
Definition second_result : Annotation * engine :=
  Eval vm_compute in
    match change first_result.1 older_dir first_result.2 with
    | Ok r => r
    | Raise _ => (AAny, fresh_engine)
    end.

End Examples.

(** ** Retargeting *)

Section retargeting_claims.
Variable get_another_version_of_cls : pytype → Path → list Path → result pytype.
Variable self : _AnnotationTransformer.

Let change (a : Annotation) (d : Path) (st : engine) :=
  _change_version_of_annotations get_another_version_of_cls self a d st.

(** The states of one transformer: the empty cache of [__init__], and
    the state any retargeting leaves. *)
Inductive reachable : engine → Prop :=
  | reachable_init n : reachable (mkEngine [] n)
  | reachable_step st a d v st' :
      reachable st → change a d st = Ok (v, st') → reachable st'.

Lemma reachable_cache_ok st :
  reachable st → cache_ok get_another_version_of_cls self st.
Proof.
  induction 1 as [n|st a d v st' _ IH Hrun]; [apply cache_ok_empty|].
  by destruct (change_kept _ _ _ _ _ _ _ IH Hrun).
Qed.

(** C9. Signature preservation: the callable the transformer makes from
    a callable has, parameter for parameter and in the same order, the
    names and kinds of the original; a parameter has a default exactly
    when the original has one, and that default is the retargeted old
    default; its annotation is the one the retargeted [__annotations__]
    hold for its name. *)
Theorem signature_preservation f d st v st' :
  reachable st →
  change (ACallable f) d st = Ok (v, st') →
  ∃ f', v = ACallable f' ∧
    map p_name (parameters (fn_signature f'))
      = map p_name (parameters (fn_signature f)) ∧
    map p_kind (parameters (fn_signature f'))
      = map p_kind (parameters (fn_signature f)) ∧
    Forall2 (parameter_kept str_key
               (retargeted get_another_version_of_cls self d)
               (fn_annotations f'))
      (parameters (fn_signature f)) (parameters (fn_signature f')) ∧
    retargeted get_another_version_of_cls self d
      (ADict (fn_annotations f)) (ADict (fn_annotations f')).
Proof.
  intros Hreach Hrun.
  destruct (change_kept _ _ _ _ _ _ _ (reachable_cache_ok _ Hreach) Hrun)
    as [_ Hkept].
  destruct (Hkept f eq_refl) as (f' & -> & _ & _ & Hall & _ & st1 & st2 & Hann).
  exists f'. split; [done|].
  destruct (parameter_kept_names _ _ _ _ _ Hall) as (Hn & Hk & _).
  repeat split; try done.
  exists st1, st2. simpl. by rewrite Hann.
Qed.

(** C8 (as amended). Memoization: once a value has been retargeted to a
    version directory, retargeting the same value to the same directory
    again returns the same result and changes nothing, immediately
    after and also after any other retargeting in between. *)
Theorem retargeting_is_memoized a d st v st1 :
  change a d st = Ok (v, st1) →
  change a d st1 = Ok (v, st1) ∧
  (∀ b d' u st2, change b d' st1 = Ok (u, st2) → change a d st2 = Ok (v, st2)).
Proof.
  intros Hrun. split.
  - eapply change_again; [exact Hrun | reflexivity].
  - intros b d' u st2 Hother.
    eapply change_again; [exact Hrun |]. eapply change_extends, Hother.
Qed.

(** C7 (as amended). Misplaced type: when the target is the directory of
    the newest version, a schema class whose source file lies under the
    directory holding the versions and under one of the version
    directories, but not under the directory of the latest module, is
    refused. *)
Theorem misplaced_type_is_refused cls file version_dir :
  is_schema cls = true →
  source_file cls = Some file →
  version_dir = latest_version_dir self →
  String.prefix (path_str (parent (template_version_dir self))) file = true →
  String.prefix (path_str (template_version_dir self)) file = false →
  (∃ d, d ∈ version_dirs self ∧ String.prefix (path_str d) file = true) →
  _change_version_of_type get_another_version_of_cls self cls version_dir
    = Raise (RouterGenerationError
               (NotDefinedInLatest (cls_name cls) (template_version_dir self)
                  file)).
Proof.
  intros Hschema Hfile -> Hunder Hlatest (d & Hd & Hpre).
  unfold _change_version_of_type. rewrite Hschema, Hfile, decide_True by done.
  rewrite Hunder, Hlatest. simpl.
  assert (existsb (λ d, String.prefix (path_str d) file) (version_dirs self)
          = true) as ->; [|done].
  apply existsb_exists. exists d. split; [by apply list_elem_of_In | done].
Qed.

End retargeting_claims.

Lemma signature_preservation_witness :
  reachable Examples.resolver Examples.transformer Examples.fresh_engine ∧
  ∃ f' : Function Annotation,
    map p_name (parameters (fn_signature f')) = ["item_id"; "q"] ∧
        map p_kind (parameters (fn_signature f'))
          = [POSITIONAL_OR_KEYWORD; KEYWORD_ONLY].
Proof.
  split; [constructor|].
  destruct (signature_preservation Examples.resolver Examples.transformer
              Examples.get_item ["app"; "schemas"; "v2023-01-01"]
              Examples.fresh_engine
              (match Examples.change (ACallable Examples.get_item)
                       ["app"; "schemas"; "v2023-01-01"] Examples.fresh_engine
               with Ok (v, _) => v | Raise _ => AAny end)
              (match Examples.change (ACallable Examples.get_item)
                       ["app"; "schemas"; "v2023-01-01"] Examples.fresh_engine
               with Ok (_, st) => st | Raise _ => Examples.fresh_engine end))
    as (f' & _ & Hn & Hk & _).
  - constructor.
  - vm_compute. reflexivity.
  - exists f'. split; [exact Hn | exact Hk].
Defined.

Lemma retargeting_is_memoized_witness :
  Examples.change (ACallable Examples.get_item) Examples.older_dir
    Examples.fresh_engine = Ok Examples.first_result ∧
  Examples.change (ACallable Examples.get_item) Examples.older_dir
    Examples.first_result.2 = Ok Examples.first_result.
Proof.
  split; [vm_compute; reflexivity|].
  apply (retargeting_is_memoized Examples.resolver Examples.transformer
           (ACallable Examples.get_item) Examples.older_dir
           Examples.fresh_engine Examples.first_result.1
           Examples.first_result.2).
  vm_compute. reflexivity.
Defined.

(** C8, the claim as the specification states it, fails: the callable made
    for a version directory is itself a new function, so retargeting it
    to the same directory makes a wrapper around the wrapper. *)
Lemma retargeting_a_retargeted_callable_wraps_it_again :
  ∃ g h st1 st2,
    Examples.change (ACallable Examples.get_item) Examples.older_dir
      Examples.fresh_engine = Ok (ACallable g, st1) ∧
    Examples.change (ACallable g) Examples.older_dir st1 = Ok (ACallable h, st2) ∧
    fn_calls g = Some (ACallable Examples.get_item) ∧
    fn_calls h = Some (ACallable g) ∧
    fn_id h ≠ fn_id g.
Proof.
  destruct Examples.first_result as [v1 st1] eqn:H1.
  destruct Examples.second_result as [v2 st2] eqn:H2.
  vm_compute in H1, H2. injection H1 as <- <-. injection H2 as <- <-.
  do 4 eexists. split; [vm_compute; reflexivity|].
  split; [vm_compute; reflexivity|].
  repeat split. simpl. lia.
Qed.

Lemma misplaced_type_is_refused_witness :
  _change_version_of_type Examples.resolver Examples.transformer Examples.OldItem
    (latest_version_dir Examples.transformer)
  = Raise (RouterGenerationError
             (NotDefinedInLatest "OldItem" ["app"; "schemas"; "latest"]
                "/app/schemas/v2023-01-01/__init__.py")).
Proof.
  apply (misplaced_type_is_refused Examples.resolver Examples.transformer
           Examples.OldItem "/app/schemas/v2023-01-01/__init__.py").
  - reflexivity.
  - reflexivity.
  - reflexivity.
  - vm_compute. reflexivity.
  - vm_compute. reflexivity.
  - exists Examples.older_dir. split; [|vm_compute; reflexivity].
    apply list_elem_of_In. simpl. right. right. left. reflexivity.
Defined.

(** C7, the claim as the specification states it, fails: the check is made
    only when the target is the directory of the newest version. The same
    class, retargeted to an older version, is handed to the resolver. *)
Lemma misplaced_type_passes_for_an_older_version :
  is_schema Examples.OldItem = true ∧
  (∃ d, d ∈ version_dirs Examples.transformer ∧
        d ≠ template_version_dir Examples.transformer ∧
        String.prefix (path_str d) "/app/schemas/v2023-01-01/__init__.py" = true) ∧
  source_file Examples.OldItem = Some "/app/schemas/v2023-01-01/__init__.py" ∧
  is_ok (_change_version_of_type Examples.resolver Examples.transformer
           Examples.OldItem Examples.older_dir) = true.
Proof.
  split; [reflexivity|]. split.
  - exists Examples.older_dir. split; [|split; [discriminate | vm_compute; reflexivity]].
    apply list_elem_of_In. simpl. right. right. left. reflexivity.
  - split; [reflexivity | vm_compute; reflexivity].
Qed.

(** ** The object store *)

(** The tag lists of the [APIRoute]s among some routes. *)
Definition api_tags (w : world) (ls : list nat) : list nat :=
  omap (λ l, match get_route w l with
             | IsAPIRoute route => Some (tags route)
             | OtherRoute => None
             end) ls.

(** How often the deleted tag occurs in a list of tags. *)
Definition deleted_tags (l : list string) : nat :=
  length (filter (λ t, t = _DELETED_ROUTE_TAG) l).


(** What a step working on the routes [ls] may change: those route
    objects, without touching which tag list they hold, and the tag lists
    they hold. Routers and every other object stay. *)
Definition modifies_only (ls : list nat) (w w' : world) : Prop :=
  router_store w' = router_store w ∧
  length (route_store w') = length (route_store w) ∧
  length (taglist_store w') = length (taglist_store w) ∧
  (∀ l, l ∉ ls → get_route w' l = get_route w l) ∧
  (∀ l, match get_route w l, get_route w' l with
        | OtherRoute, OtherRoute => True
        | IsAPIRoute r, IsAPIRoute r' => tags r' = tags r
        | _, _ => False
        end) ∧
  (∀ t, t ∉ api_tags w ls → get_tags w' t = get_tags w t).

Lemma get_route_set_routes w x l :
  get_route (set_routes w x) l = x !!! l.
Proof. reflexivity. Qed.

Lemma get_route_insert w l l' x :
  get_route (set_routes w (<[l := x]> (route_store w))) l' =
  if decide (l = l' ∧ l < length (route_store w)) then x else get_route w l'.
Proof. unfold get_route. simpl. apply list_lookup_total_insert. Qed.

Lemma get_tags_insert w t t' x :
  get_tags (set_taglists w (<[t := x]> (taglist_store w))) t' =
  if decide (t = t' ∧ t < length (taglist_store w)) then x else get_tags w t'.
Proof. unfold get_tags. simpl. apply list_lookup_total_insert. Qed.

Lemma get_route_api_lt w l r :
  get_route w l = IsAPIRoute r → l < length (route_store w).
Proof.
  unfold get_route. intros H. destruct (decide (l < length (route_store w))); [done|].
  rewrite list_lookup_total_alt, lookup_ge_None_2 in H by lia. discriminate.
Qed.

Lemma api_tags_skeleton w w' ls :
  (∀ l, match get_route w l, get_route w' l with
        | OtherRoute, OtherRoute => True
        | IsAPIRoute r, IsAPIRoute r' => tags r' = tags r
        | _, _ => False
        end) →
  api_tags w' ls = api_tags w ls.
Proof.
  intros H. unfold api_tags. induction ls as [|l ls IH]; [done|]. simpl.
  specialize (H l). destruct (get_route w l), (get_route w' l); try done.
  rewrite H. f_equal. exact IH.
Qed.

Lemma modifies_only_refl ls w : modifies_only ls w w.
Proof.
  repeat split; try done. intros l. by destruct (get_route w l).
Qed.

Lemma modifies_only_trans ls w1 w2 w3 :
  modifies_only ls w1 w2 → modifies_only ls w2 w3 → modifies_only ls w1 w3.
Proof.
  intros (Hr1 & Hl1 & Ht1 & Hf1 & Hs1 & Hg1) (Hr2 & Hl2 & Ht2 & Hf2 & Hs2 & Hg2).
  repeat split; try congruence.
  - intros l Hl. by rewrite Hf2, Hf1.
  - intros l. specialize (Hs1 l). specialize (Hs2 l).
    destruct (get_route w1 l), (get_route w2 l), (get_route w3 l); try done.
    congruence.
  - intros t Ht. rewrite Hg2, Hg1; [done..|].
    by rewrite (api_tags_skeleton w1 w2).
Qed.

Lemma modifies_only_weaken ls ls' w w' :
  ls ⊆ ls' → modifies_only ls w w' → modifies_only ls' w w'.
Proof.
  intros Hsub (Hr & Hl & Ht & Hf & Hs & Hg). repeat split; try done.
  - intros l Hl'. apply Hf. intros ?. apply Hl'. by apply Hsub.
  - intros t Ht'. apply Hg. intros Hin. apply Ht'.
    unfold api_tags in *. apply list_elem_of_omap in Hin as (l & Hl' & Hx).
    apply list_elem_of_omap. exists l. split; [by apply Hsub | done].
Qed.

(** ** Attributes of a route *)

Lemma py_eq_str x s : py_eq x (VStr s) = true ↔ x = VStr s.
Proof.
  destruct x; simpl; try (split; [discriminate | done]).
  rewrite bool_decide_eq_true. split; congruence.
Qed.

Lemma py_eq_refl x : py_eq x x = true.
Proof. destruct x; simpl; by rewrite ?bool_decide_eq_true. Qed.

(** The route has the value of the attribute. *)
Definition has_value (route : APIRoute) (a : attribute) : Prop :=
  match a with
  | PathIs attr => path route = VStr attr
  | ResponseModelIs attr => response_model route = attr
  | TagsAre attr => tags route = attr
  | DependenciesAre attr => dependencies route = attr
  | MethodsAre attr => methods route = attr
  | PlainIs a attr => route_getattr route a = Some attr
  end.

Lemma attribute_name_inj a b : attribute_name a = attribute_name b → a = b.
Proof. destruct a, b; simpl; intros H; first [done | discriminate H]. Qed.

Lemma has_value_setattr r a : has_value (route_setattr r a) a.
Proof. destruct a; simpl; try done. apply lookup_insert_eq. Qed.

Lemma has_value_setattr_ne r a b :
  attr_name_of a ≠ attr_name_of b →
  has_value (route_setattr r b) a ↔ has_value r a.
Proof.
  intros Hne. destruct a, b; simpl in *; try done.
  unfold route_getattr. simpl. by rewrite lookup_insert_ne by congruence.
Qed.

Lemma attribute_is_the_same_setattr_ne w r a b :
  attr_name_of a ≠ attr_name_of b →
  attribute_is_the_same w (route_setattr r b) a = attribute_is_the_same w r a.
Proof.
  intros Hne. destruct a, b; simpl in *; try done.
  unfold route_getattr. simpl. by rewrite lookup_insert_ne by congruence.
Qed.

Lemma attribute_is_the_same_has_value w r a :
  has_value r a → attribute_is_the_same w r a = Ok true.
Proof.
  destruct a; simpl; intros ->; rewrite ?bool_decide_eq_true_2 by done;
    try done.
  all: by rewrite py_eq_refl.
Qed.

Lemma route_setattr_endpoint r a : endpoint (route_setattr r a) = endpoint r.
Proof. by destruct a. Qed.

(** What the route had under a name that is not declared, it keeps; the
    handler stays. *)
Lemma apply_attributes_kept vc w l :
  ∀ r r', apply_attributes vc w l r = Ok r' →
    endpoint r' = endpoint r ∧
    ∀ a, has_value r a → attr_name_of a ∉ attr_name_of <$> l → has_value r' a.
Proof.
  induction l as [|b l IH]; intros r r' Hrun; simpl in Hrun.
  - by injection Hrun as <-.
  - destruct (attribute_is_the_same w r b) as [[|]|]; try discriminate.
    apply IH in Hrun as [He Hkeep]. rewrite He, route_setattr_endpoint.
    split; [done|]. intros a Ha Hnot. rewrite fmap_cons in Hnot.
    apply not_elem_of_cons in Hnot as [Hne Hnot].
    apply Hkeep; [|done]. by apply has_value_setattr_ne.
Qed.

(** Both outcomes of the loop over declared attributes with distinct
    names, the plain ones among them attributes of the route. *)
Lemma apply_attributes_spec vc w l :
  ∀ r, NoDup (attr_name_of <$> l) →
    (∀ n v, PlainIs n v ∈ l → is_Some (route_getattr r n)) →
    match apply_attributes vc w l r with
    | Ok r' =>
        (∀ a, a ∈ l → attribute_is_the_same w r a = Ok false) ∧
        (∀ a, a ∈ l → has_value r' a)
    | Raise e =>
        ∃ a m p, a ∈ l ∧ attribute_is_the_same w r a = Ok true ∧
          e = RouterGenerationError (AttributeIsTheSame (attr_name_of a) m p vc)
    end.
Proof.
  induction l as [|b l IH]; intros r Hnd Hhas; simpl.
  - split; intros a Ha; by apply elem_of_nil in Ha.
  - rewrite fmap_cons in Hnd. apply NoDup_cons in Hnd as [Hb Hnd].
    assert (∀ a, a ∈ l → attr_name_of a ≠ attr_name_of b) as Hother.
    { intros a Ha Heq. apply Hb. rewrite <- Heq.
      apply list_elem_of_fmap. by exists a. }
    assert (∃ same, attribute_is_the_same w r b = Ok same) as [same Hsame].
    { destruct b as [| | | | |n v]; simpl; try by eexists.
      destruct (Hhas n v) as [c Hc]; [left|]. rewrite Hc. by eexists. }
    rewrite Hsame. destruct same.
    { exists b, (methods r), (path r). split; [left | done]. }
    specialize (IH (route_setattr r b) Hnd).
    pose proof (apply_attributes_kept vc w l (route_setattr r b)) as Hkept.
    destruct (apply_attributes vc w l (route_setattr r b)) as [r'|e].
    + destruct IH as [Hdiff Hset].
      { intros n v Hin. destruct (Hhas n v) as [c Hc]; [by right|].
        exists c. apply (has_value_setattr_ne _ (PlainIs n c)); [|done].
        exact (Hother (PlainIs n v) Hin). }
      split.
      * intros a [->|Ha]%elem_of_cons; [done|].
        rewrite <- (attribute_is_the_same_setattr_ne w r a b) by eauto. eauto.
      * intros a [->|Ha]%elem_of_cons; [|eauto].
        destruct (Hkept r' eq_refl) as [_ Hkeep]. apply Hkeep.
        -- apply has_value_setattr.
        -- done.
    + destruct IH as (a & m & p & Ha & Heq & ->).
      { intros n v Hin. destruct (Hhas n v) as [c Hc]; [by right|].
        exists c. apply (has_value_setattr_ne _ (PlainIs n c)); [|done].
        exact (Hother (PlainIs n v) Hin). }
      exists a, m, p. split; [by right|]. split; [|done].
      rewrite <- (attribute_is_the_same_setattr_ne w r a b) by eauto. done.
Qed.

(** The declared attributes of a payload have distinct names. *)
Lemma declared_names_step (o : option attribute) n rest names :
  (∀ a, o = Some a → attr_name_of a = n) →
  attr_name_of <$> omap id rest `sublist_of` names →
  attr_name_of <$> omap id (o :: rest) `sublist_of` n :: names.
Proof.
  intros Hn Hrest. destruct o as [a|]; simpl.
  - rewrite (Hn a eq_refl). by apply sublist_skip.
  - by apply sublist_cons.
Qed.

Lemma declared_NoDup attributes : NoDup (attr_name_of <$> declared attributes).
Proof.
  eapply (sublist_NoDup _
    ["path"; "response_model"; "status_code"; "tags"; "dependencies";
     "summary"; "description"; "response_description"; "deprecated";
     "methods"; "operation_id"; "include_in_schema"; "name"]).
  - apply (bool_decide_unpack _). vm_compute. exact I.
  - unfold declared.
    repeat (apply declared_names_step;
            [intros a Ha; apply fmap_Some in Ha as (? & _ & ->); reflexivity|]).
    apply sublist_nil.
Qed.

(** C6. Vacuous attribute change: applied to a route, an attribute-change
    instruction fails with the error that names an attribute as soon as
    one of its declared attributes equals the value the route has for it;
    when every declared attribute differs, the route has each declared
    value afterwards, and keeps its handler and what it had under every
    name that is not declared. The attributes the instruction declares
    are attributes of the route. *)
Theorem vacuous_attribute_change vc w attributes r :
  (∀ n v, PlainIs n v ∈ declared attributes → is_Some (route_getattr r n)) →
  ((∃ a, a ∈ declared attributes ∧ attribute_is_the_same w r a = Ok true) →
   ∃ a m p, a ∈ declared attributes ∧ attribute_is_the_same w r a = Ok true ∧
     _apply_endpoint_had_instruction vc w attributes r
       = Raise (RouterGenerationError
                  (AttributeIsTheSame (attr_name_of a) m p vc))) ∧
  ((∀ a, a ∈ declared attributes → attribute_is_the_same w r a = Ok false) →
   ∃ r', _apply_endpoint_had_instruction vc w attributes r = Ok r' ∧
     (∀ a, a ∈ declared attributes → has_value r' a) ∧
     (∀ a, has_value r a →
           attr_name_of a ∉ attr_name_of <$> declared attributes →
           has_value r' a) ∧
     endpoint r' = endpoint r).
Proof.
  intros Hhas. unfold _apply_endpoint_had_instruction.
  pose proof (apply_attributes_spec vc w (declared attributes) r
                (declared_NoDup attributes) Hhas) as H.
  pose proof (apply_attributes_kept vc w (declared attributes) r) as Hkept.
  destruct (apply_attributes vc w (declared attributes) r) as [r'|e]; split.
  - intros (a & Hin & Heq). destruct H as [Hdiff _].
    rewrite (Hdiff a Hin) in Heq. discriminate.
  - intros _. exists r'. destruct H as [_ Hset].
    destruct (Hkept r' eq_refl) as [He Hkeep]. by split_and!.
  - intros _. destruct H as (a & m & p & Hin & Heq & ->). by exists a, m, p.
  - intros Hdiff. destruct H as (a & m & p & Hin & Heq & _).
    rewrite (Hdiff a Hin) in Heq. discriminate.
Qed.

(** ** Scenarios of the specification *)

Module Scenarios.

Definition no_resolver (cls : pytype) (d : Path) (dirs : list Path)
  : result pytype := Ok cls.

Definition version_dir_path (m : ModuleType) (v : VersionDate) : Path :=
  ["app"; "schemas"; String.append "v" v].

Definition is_dir (d : Path) : bool := true.

Definition handler (id : nat) (name : string) : Function Annotation :=
  mkFunction id name true [] [] (mkSignature [] None) None.

(** [POST /orders], already deprecated. *)
Definition orders : APIRoute :=
  mkAPIRoute (VStr "/orders") {["POST"]} (handler 0 "create_order") 0 None []
    {["deprecated" := VBool true; "status_code" := VInt 200]}.

(** [had(deprecated=True)]. *)
Definition deprecate : EndpointAttributesPayload :=
  mkEndpointAttributesPayload None None None None None None None None
    (Some (VBool true)) None None None None.

(** [GET /items] handled by [handler_v2], in a router of its own. *)
Definition items : APIRoute :=
  mkAPIRoute (VStr "/items") {["GET"]} (handler 0 "handler_v2") 0 None [] ∅.

Definition latest : world :=
  mkWorld [[0]] [IsAPIRoute items] [[]] 1 [] [].

Definition transformer (versions : VersionBundle) : _EndpointTransformer :=
  mkEndpointTransformer 0 versions None.

(** A table with [GET, POST /items] and [GET /items]. *)
Definition both_items : APIRoute :=
  mkAPIRoute (VStr "/items") {["GET"; "POST"]} (handler 1 "replace_items") 0
    None [] ∅.

Definition get_items : APIRoute :=
  mkAPIRoute (VStr "/items") {["GET"]} (handler 2 "get_items") 1 None [] ∅.

Definition two_routes : world :=
  mkWorld [[0; 1]] [IsAPIRoute both_items; IsAPIRoute get_items] [[]; []] 3 [] [].

(** The same table with [GET /items] already marked deleted. *)
Definition one_deleted : world :=
  mkWorld [[0; 1]] [IsAPIRoute both_items; IsAPIRoute get_items]
    [[]; [_DELETED_ROUTE_TAG]] 3 [] [].

Definition a_version : Version := mkVersion "2023-02-01" [].

Definition a_change : VersionChange := mkVersionChange "RemoveItems" [].

Definition delete_get_items : AlterEndpointInstruction :=
  EndpointDidntExistInstruction "/items" ["GET"] None.

Definition effect (routes : list nat) (i : AlterEndpointInstruction) (w : world) :=
  instruction_effect no_resolver version_dir_path (transformer []) a_version
    a_change routes i w.

Definition carry_out (routes : list nat) (w : world) (i : AlterEndpointInstruction) :=
  apply_instruction no_resolver version_dir_path (transformer []) a_version
    a_change routes w i.

(** The state after [GET /items] has been deleted from [two_routes]. *)
Definition after_delete : world :=
  Eval vm_compute in
    match effect [0; 1] delete_get_items two_routes with
    | Ok (w, _, _) => w
    | Raise _ => two_routes
    end.

Definition run (versions : VersionBundle) (w : world) :=
  transform no_resolver version_dir_path is_dir (transformer versions) w.

(** The routes of the table of a version. *)
Definition table (r : result (gmap VersionDate nat * world)) (v : VersionDate)
  : option (list nat) :=
  match r with
  | Ok (routers, w) => router_routes w <$> routers !! v
  | Raise _ => None
  end.

End Scenarios.

Lemma vacuous_attribute_change_witness :
  ∃ a m p, a ∈ declared Scenarios.deprecate ∧
    attribute_is_the_same Scenarios.latest Scenarios.orders a = Ok true ∧
    _apply_endpoint_had_instruction "DeprecateOrders" Scenarios.latest
      Scenarios.deprecate Scenarios.orders
    = Raise (RouterGenerationError
               (AttributeIsTheSame (attr_name_of a) m p "DeprecateOrders")).
Proof.
  apply (vacuous_attribute_change "DeprecateOrders" Scenarios.latest
           Scenarios.deprecate Scenarios.orders).
  - intros n v [[= -> ->]|[]%elem_of_nil]%elem_of_cons. vm_compute. eauto.
  - exists (PlainIs Deprecated (VBool true)).
    split; [left | vm_compute; reflexivity].
Defined.

(** ** One instruction *)

(** The methods of a route; none for a route that is not an [APIRoute]. *)
Definition methods_of (w : world) (l : nat) : gset string :=
  match get_route w l with
  | IsAPIRoute route => methods route
  | OtherRoute => ∅
  end.

(** The routes an instruction works on: the deleted ones it finds when it
    restores, the active ones otherwise. *)
Definition affected_routes (w : world) (routes : list nat)
    (instruction : AlterEndpointInstruction) : list nat :=
  _get_routes w routes (endpoint_path instruction) (endpoint_methods instruction)
    (endpoint_func_name instruction)
    (match instruction with
     | EndpointExistedInstruction _ _ _ => true
     | _ => false
     end).

Lemma method_union_foldl w ls acc :
  foldl (λ acc l, match get_route w l with
                  | IsAPIRoute route => acc ∪ methods route
                  | OtherRoute => acc
                  end) acc ls
  = acc ∪ method_union w ls.
Proof.
  unfold method_union. revert acc.
  induction ls as [|l ls IH]; intros acc; simpl; [set_solver|].
  rewrite IH, (IH (match get_route w l with
                   | IsAPIRoute route => ∅ ∪ methods route
                   | OtherRoute => ∅
                   end)).
  destruct (get_route w l); set_solver.
Qed.

Lemma method_union_cons w l ls :
  method_union w (l :: ls) = methods_of w l ∪ method_union w ls.
Proof.
  unfold method_union at 1. simpl. rewrite method_union_foldl.
  unfold methods_of. destruct (get_route w l); set_solver.
Qed.

Lemma method_union_elem w ls m :
  m ∈ method_union w ls ↔ ∃ l, l ∈ ls ∧ m ∈ methods_of w l.
Proof.
  induction ls as [|l ls IH].
  - split; [set_solver | intros (l & Hl & _); by apply elem_of_nil in Hl].
  - rewrite method_union_cons, elem_of_union, IH. split.
    + intros [H|(l' & Hl' & H)]; [exists l | exists l']; split; try done;
        [left | by right].
    + intros (l' & [->|Hl']%elem_of_cons & H); [by left | right; eauto].
Qed.

Lemma for_loop_cons {A S} (body : S → A → result S) x l st :
  for_loop body (x :: l) st =
  match body st x with Ok st1 => for_loop body l st1 | Raise e => Raise e end.
Proof. reflexivity. Qed.

(** A step that leaves the methods of every route as they were. *)
Definition methods_kept (w w' : world) : Prop :=
  ∀ l, methods_of w' l = methods_of w l.

Lemma methods_kept_refl w : methods_kept w w.
Proof. done. Qed.

Lemma methods_kept_trans w1 w2 w3 :
  methods_kept w1 w2 → methods_kept w2 w3 → methods_kept w1 w3.
Proof. intros H1 H2 l. by rewrite H2, H1. Qed.

Lemma methods_kept_same_routes w w' :
  route_store w' = route_store w → methods_kept w w'.
Proof. intros H l. unfold methods_of, get_route. by rewrite H. Qed.

Lemma method_union_ext w w' ls :
  (∀ l, l ∈ ls → methods_of w' l = methods_of w l) →
  method_union w' ls = method_union w ls.
Proof.
  induction ls as [|l ls IH]; intros H; [done|].
  rewrite !method_union_cons, IH, H; [done|left|].
  intros l' Hl'. apply H. by right.
Qed.

Lemma method_union_kept w w' ls :
  methods_kept w w' → method_union w' ls = method_union w ls.
Proof. intros H. apply method_union_ext. intros l _. apply H. Qed.

(** A loop over routes whose body changes one route at a time, not its
    methods, and adds its methods changes those routes only and adds all
    their methods. *)
Lemma for_loop_modifies
    (body : world * gset string → nat → result (world * gset string)) ls :
  (∀ w acc l w' acc', body (w, acc) l = Ok (w', acc') →
     modifies_only [l] w w' ∧ methods_kept w w' ∧ acc' = acc ∪ methods_of w l) →
  ∀ w acc w' acc', for_loop body ls (w, acc) = Ok (w', acc') →
    modifies_only ls w w' ∧ methods_kept w w' ∧ acc' = acc ∪ method_union w ls.
Proof.
  intros Hbody. induction ls as [|l ls IH]; intros w acc w' acc' Hrun; simpl in Hrun.
  - injection Hrun as <- <-. split; [apply modifies_only_refl|].
    split; [done | set_solver].
  - destruct (body (w, acc) l) as [[w1 acc1]|] eqn:Hb; [|discriminate].
    destruct (Hbody _ _ _ _ _ Hb) as (Hm1 & Hk1 & ->).
    destruct (IH _ _ _ _ Hrun) as (Hm2 & Hk2 & ->). split_and!.
    + eapply modifies_only_trans.
      * eapply modifies_only_weaken; [|exact Hm1]. set_solver.
      * eapply modifies_only_weaken; [|exact Hm2]. set_solver.
    + by eapply methods_kept_trans.
    + rewrite method_union_cons, (method_union_kept w w1) by done.
      set_solver.
Qed.

Lemma modifies_only_set_route w l r r' :
  get_route w l = IsAPIRoute r → tags r' = tags r →
  modifies_only [l] w (set_routes w (<[l := IsAPIRoute r']> (route_store w))).
Proof.
  intros Hl Ht. repeat split; simpl; try done.
  - apply length_insert.
  - intros l' Hl'. rewrite get_route_insert, decide_False; [done|].
    intros [-> _]. apply Hl'. left.
  - intros l'. rewrite get_route_insert. case_decide as Hd.
    + destruct Hd as [<- _]. by rewrite Hl.
    + by destruct (get_route w l').
Qed.

Lemma methods_kept_set_route w l r r' :
  get_route w l = IsAPIRoute r → methods r' = methods r →
  methods_kept w (set_routes w (<[l := IsAPIRoute r']> (route_store w))).
Proof.
  intros Hl Hm l'. unfold methods_of. rewrite get_route_insert.
  case_decide as Hd; [|done]. destruct Hd as [<- _]. by rewrite Hl.
Qed.

Lemma modifies_only_set_taglist w l r x :
  get_route w l = IsAPIRoute r →
  modifies_only [l] w (set_taglists w (<[tags r := x]> (taglist_store w))).
Proof.
  intros Hl. repeat split; simpl; try done.
  - apply length_insert.
  - intros l'. change (get_route (set_taglists _ _) l') with (get_route w l').
    by destruct (get_route w l').
  - intros t Ht. rewrite get_tags_insert, decide_False; [done|].
    intros [<- _]. apply Ht. unfold api_tags. simpl. rewrite Hl. left.
Qed.

(** A step that leaves routes, tag lists and routers alone. *)
Lemma modifies_only_same_store ls w w' :
  router_store w' = router_store w → route_store w' = route_store w →
  taglist_store w' = taglist_store w → modifies_only ls w w'.
Proof.
  intros Hr Hs Ht. unfold modifies_only, get_route, get_tags.
  rewrite Hr, Hs, Ht. repeat split; try done.
  intros l. by destruct (route_store w !!! l).
Qed.

(** What any step working on the routes [ls] changes at most: those
    route objects and the tag lists they hold. *)
Definition frame_only (ls : list nat) (w w' : world) : Prop :=
  router_store w' = router_store w ∧
  length (route_store w') = length (route_store w) ∧
  length (taglist_store w') = length (taglist_store w) ∧
  (∀ l, l ∉ ls → get_route w' l = get_route w l) ∧
  (∀ t, t ∉ api_tags w ls → get_tags w' t = get_tags w t).

Lemma modifies_only_frame ls w w' : modifies_only ls w w' → frame_only ls w w'.
Proof. intros (? & ? & ? & ? & _ & ?). by split_and!. Qed.

(** The routes [_get_routes] returns are those of the list that are
    [APIRoute]s with the given path, with all their methods among the
    given ones, with the given function name if one is given, and deleted
    or not as asked. *)
Lemma _get_routes_spec w routes p ms fn del l :
  l ∈ _get_routes w routes p ms fn del ↔
  l ∈ routes ∧
  ∃ r, get_route w l = IsAPIRoute r ∧ path r = VStr p ∧
       methods r ⊆ list_to_set ms ∧
       (∀ n, fn = Some n → fn_name (endpoint r) = n) ∧
       has_deleted_tag w r = del.
Proof.
  unfold _get_routes. rewrite list_elem_of_filter. unfold route_is_found.
  split.
  - intros [Hf Hin]. split; [done|].
    destruct (get_route w l) as [|r]; [done|]. exists r. split; [done|].
    apply andb_prop_elim in Hf as [Hf Hdel].
    apply andb_prop_elim in Hf as [Hf Hname].
    apply andb_prop_elim in Hf as [Hpath Hsub].
    apply Is_true_true, py_eq_str in Hpath.
    apply bool_decide_unpack in Hsub, Hdel.
    repeat split; try done.
    intros n ->. by apply bool_decide_unpack in Hname.
  - intros [Hin (r & -> & Hpath & Hsub & Hname & Hdel)]. split; [|done].
    apply andb_prop_intro. split; [|by apply bool_decide_pack].
    apply andb_prop_intro. split.
    + apply andb_prop_intro. split; [|by apply bool_decide_pack].
      by apply Is_true_true, py_eq_str.
    + destruct fn as [n|]; [|done]. apply bool_decide_pack. by apply Hname.
Qed.

Lemma _get_routes_methods w routes p ms fn del :
  method_union w (_get_routes w routes p ms fn del) ⊆ list_to_set ms.
Proof.
  intros m (l & Hl & Hm)%method_union_elem.
  apply _get_routes_spec in Hl as (_ & r & Hr & _ & Hsub & _).
  unfold methods_of in Hm. rewrite Hr in Hm. by apply Hsub.
Qed.

(** ** Attribute changes on the routes found *)

(** The field of the payload for a plain attribute. *)
Definition payload_plain (attributes : EndpointAttributesPayload)
    (a : plain_attribute) : option attr_value :=
  match a with
  | StatusCode => payload_status_code attributes
  | Summary => payload_summary attributes
  | Description => payload_description attributes
  | ResponseDescription => payload_response_description attributes
  | Deprecated => payload_deprecated attributes
  | OperationId => payload_operation_id attributes
  | IncludeInSchema => payload_include_in_schema attributes
  | Name => payload_name attributes
  end.

(** The declared attributes are the fields that are not [Sentinel]. *)
Lemma declared_spec attributes a :
  a ∈ declared attributes ↔
  match a with
  | PathIs attr => payload_path attributes = Some attr
  | ResponseModelIs attr => payload_response_model attributes = Some attr
  | TagsAre attr => payload_tags attributes = Some attr
  | DependenciesAre attr => payload_dependencies attributes = Some attr
  | MethodsAre attr => payload_methods attributes = Some attr
  | PlainIs n attr => payload_plain attributes n = Some attr
  end.
Proof.
  unfold declared. rewrite list_elem_of_omap. split.
  - intros (o & Ho & Hid). simpl in Hid. subst o.
    repeat (apply elem_of_cons in Ho as [Ho|Ho];
            [apply eq_sym, fmap_Some in Ho as (x & Hx & ->); exact Hx|]).
    by apply elem_of_nil in Ho.
  - intros H. exists (Some a). split; [|done].
    destruct a as [| | | | |n v]; [| | | | |destruct n]; simpl in H; rewrite H;
      simpl; repeat (first [left; reflexivity | right]).
Qed.

Lemma declared_name attributes a b :
  a ∈ declared attributes → b ∈ declared attributes →
  attr_name_of a = attr_name_of b → a = b.
Proof.
  intros Ha Hb Hname.
  pose proof (declared_NoDup attributes) as Hnd.
  apply list_elem_of_lookup in Ha as [i Hi], Hb as [j Hj].
  assert (i = j) as ->; [|congruence].
  eapply NoDup_lookup; [exact Hnd| |].
  - rewrite list_lookup_fmap, Hi. reflexivity.
  - rewrite list_lookup_fmap, Hj. simpl. by rewrite Hname.
Qed.



Lemma methods_not_declared attributes :
  payload_methods attributes = None →
  "methods" ∉ attr_name_of <$> declared attributes.
Proof.
  intros Hnone (a & Hname & Ha)%list_elem_of_fmap.
  apply declared_spec in Ha.
  destruct a as [| | | | |n v]; try discriminate Hname; [congruence|].
  by destruct n.
Qed.

Lemma path_not_declared attributes :
  payload_path attributes = None →
  "path" ∉ attr_name_of <$> declared attributes.
Proof.
  intros Hnone (a & Hname & Ha)%list_elem_of_fmap.
  apply declared_spec in Ha.
  destruct a as [| | | | |n v]; try discriminate Hname; [congruence|].
  by destruct n.
Qed.

(** What an attribute change leaves of a route: its handler, and what it
    had under every name that is not declared; its path is the one it had
    or the declared one. *)
Definition had_changed (attributes : EndpointAttributesPayload)
    (r r' : APIRoute) : Prop :=
  endpoint r' = endpoint r ∧
  (∀ a, has_value r a → attr_name_of a ∉ attr_name_of <$> declared attributes →
        has_value r' a) ∧
  (path r' = path r ∨
   ∃ q, payload_path attributes = Some q ∧ path r' = VStr q).

Lemma had_changed_refl attributes r : had_changed attributes r r.
Proof. split_and!; auto. Qed.

Lemma had_changed_trans attributes r1 r2 r3 :
  had_changed attributes r1 r2 → had_changed attributes r2 r3 →
  had_changed attributes r1 r3.
Proof.
  intros (He1 & Hk1 & Hp1) (He2 & Hk2 & Hp2). split_and!; [congruence | auto |].
  destruct Hp2 as [Hp2|?]; [|by right]. rewrite Hp2. exact Hp1.
Qed.

Lemma apply_attributes_path vc w l :
  ∀ r r', apply_attributes vc w l r = Ok r' →
    path r' = path r ∨ ∃ q, PathIs q ∈ l ∧ path r' = VStr q.
Proof.
  induction l as [|b l IH]; intros r r' Hrun; simpl in Hrun.
  - injection Hrun as <-. by left.
  - destruct (attribute_is_the_same w r b) as [[|]|]; try discriminate.
    apply IH in Hrun as [Hp|(q & Hq & Hp)].
    + rewrite Hp. destruct b; simpl; try by left.
      right. eexists. split; [left | done].
    + right. exists q. split; [by right | done].
Qed.

Lemma _apply_endpoint_had_instruction_changed vc w attributes r r' :
  _apply_endpoint_had_instruction vc w attributes r = Ok r' →
  had_changed attributes r r'.
Proof.
  intros Hrun. pose proof (apply_attributes_kept _ _ _ _ _ Hrun) as [He Hk].
  split_and!; [done..|].
  apply apply_attributes_path in Hrun as [?|(q & Hq & ?)]; [by left|].
  right. exists q. split; [|done]. by apply (declared_spec attributes (PathIs q)).
Qed.


Lemma had_changed_methods attributes r r' :
  payload_methods attributes = None → had_changed attributes r r' →
  methods r' = methods r.
Proof.
  intros Hnone (_ & Hkeep & _).
  apply (Hkeep (MethodsAre (methods r))); [done | by apply methods_not_declared].
Qed.

(** A route an attribute change has gone through does not go through it
    again when the change declares anything: the first declared
    attribute now has the declared value. *)
Lemma _apply_endpoint_had_instruction_again vc w w2 attributes r r' :
  _apply_endpoint_had_instruction vc w attributes r = Ok r' →
  declared attributes ≠ [] →
  taglist_store w2 = taglist_store w →
  ∃ e, _apply_endpoint_had_instruction vc w2 attributes r' = Raise e.
Proof.
  unfold _apply_endpoint_had_instruction.
  pose proof (declared_NoDup attributes) as Hnd.
  destruct (declared attributes) as [|a rest]; [done|].
  intros Hrun _ Hts. simpl in Hrun.
  destruct (attribute_is_the_same w r a) as [[|]|]; try discriminate.
  rewrite fmap_cons in Hnd. apply NoDup_cons in Hnd as [Ha _].
  apply apply_attributes_kept in Hrun as [_ Hkeep].
  specialize (Hkeep a (has_value_setattr r a) Ha).
  simpl. rewrite (attribute_is_the_same_has_value w2 r' a Hkeep). by eexists.
Qed.

Lemma _apply_endpoint_had_instruction_same_tags vc w w2 attributes r :
  taglist_store w2 = taglist_store w →
  _apply_endpoint_had_instruction vc w2 attributes r
  = _apply_endpoint_had_instruction vc w attributes r.
Proof.
  intros Hts. unfold _apply_endpoint_had_instruction.
  generalize (declared attributes) as l. intros l. revert r.
  induction l as [|a l IH]; intros r; [done|]. simpl.
  assert (attribute_is_the_same w2 r a = attribute_is_the_same w r a) as ->.
  { destruct a; simpl; try done. unfold get_tags. by rewrite Hts. }
  destruct (attribute_is_the_same w r a) as [[|]|]; try done.
Qed.

Lemma change_route_inv vc attributes w acc l w' acc' :
  change_route vc attributes (w, acc) l = Ok (w', acc') →
  acc' = acc ∪ methods_of w l ∧
  router_store w' = router_store w ∧
  taglist_store w' = taglist_store w ∧
  length (route_store w') = length (route_store w) ∧
  (∀ l', l' ≠ l → get_route w' l' = get_route w l') ∧
  match get_route w l with
  | OtherRoute => get_route w' l = OtherRoute
  | IsAPIRoute r =>
      ∃ r', _apply_endpoint_had_instruction (version_change_name vc) w
              attributes r = Ok r' ∧
            get_route w' l = IsAPIRoute r'
  end.
Proof.
  unfold change_route, methods_of. destruct (get_route w l) as [|r] eqn:Hl.
  - intros [= <- <-]. rewrite Hl. split_and!; try done. set_solver.
  - destruct (_apply_endpoint_had_instruction _ _ _ _) as [r'|] eqn:Hr;
      [|discriminate].
    intros [= <- <-]. simpl. split_and!; try done.
    + apply length_insert.
    + intros l' Hne. rewrite get_route_insert, decide_False; [done|].
      by intros [-> _].
    + exists r'. split; [done|]. rewrite get_route_insert, decide_True; [done|].
      split; [done|]. by eapply get_route_api_lt.
Qed.

Lemma had_loop_raises vc attributes rest :
  ∀ w acc l r,
    l ∈ rest → get_route w l = IsAPIRoute r →
    (∃ e, _apply_endpoint_had_instruction (version_change_name vc) w
            attributes r = Raise e) →
    ∃ e, for_loop (change_route vc attributes) rest (w, acc) = Raise e.
Proof.
  induction rest as [|l' rest IH]; intros w acc l r Hin Hl Hraise.
  { by apply elem_of_nil in Hin. }
  rewrite for_loop_cons.
  destruct (change_route vc attributes (w, acc) l') as [[w1 acc1]|e] eqn:Hb;
    [|by eexists].
  apply change_route_inv in Hb as (_ & _ & Hts & _ & Hf & Hat).
  apply elem_of_cons in Hin as [->|Hin].
  - rewrite Hl in Hat. destruct Hat as (r' & Hok & _).
    destruct Hraise as [e He]. congruence.
  - destruct (decide (l = l')) as [->|Hne].
    + rewrite Hl in Hat. destruct Hat as (r' & Hok & _).
      destruct Hraise as [e He]. congruence.
    + apply (IH w1 acc1 l r Hin); [by rewrite Hf|].
      by rewrite (_apply_endpoint_had_instruction_same_tags _ w w1).
Qed.

(** The loop of an attribute change: the routes outside those found stay,
    those found change as the payload says, and the methods added are
    those the routes found had before. *)
Lemma had_loop vc attributes fs :
  ∀ w acc w' acc',
    for_loop (change_route vc attributes) fs (w, acc) = Ok (w', acc') →
    acc' = acc ∪ method_union w fs ∧
    router_store w' = router_store w ∧
    taglist_store w' = taglist_store w ∧
    length (route_store w') = length (route_store w) ∧
    (∀ l, l ∉ fs → get_route w' l = get_route w l) ∧
    (∀ l, match get_route w l, get_route w' l with
          | OtherRoute, OtherRoute => True
          | IsAPIRoute r, IsAPIRoute r' => had_changed attributes r r'
          | _, _ => False
          end).
Proof.
  induction fs as [|l fs IH]; intros w acc w' acc' Hrun.
  { injection Hrun as <- <-. split_and!; try done; [set_solver|].
    intros l. destruct (get_route w l); [done | apply had_changed_refl]. }
  rewrite for_loop_cons in Hrun.
  destruct (change_route vc attributes (w, acc) l) as [[w1 acc1]|] eqn:Hb;
    [|discriminate].
  apply change_route_inv in Hb as (-> & Hrs1 & Hts1 & Hlen1 & Hf1 & Hat).
  pose proof Hrun as Hrun'.
  apply IH in Hrun as (-> & Hrs2 & Hts2 & Hlen2 & Hf2 & Hrel2).
  assert (l ∈ fs → get_route w1 l = get_route w l) as Hagain.
  { intros Hin. destruct (get_route w l) as [|r] eqn:Hl; [done|].
    destruct Hat as (r' & Hok & Hl1). rewrite Hl1.
    destruct (declared attributes) as [|a rest] eqn:Hd.
    - unfold _apply_endpoint_had_instruction in Hok. rewrite Hd in Hok.
      by injection Hok as <-.
    - destruct (had_loop_raises vc attributes fs w1 (acc ∪ methods_of w l) l r'
                  Hin Hl1) as [e He]; [|congruence].
      eapply _apply_endpoint_had_instruction_again; [exact Hok| |done].
      by rewrite Hd. }
  split_and!; try congruence.
  - rewrite method_union_cons, (method_union_ext w w1); [set_solver|].
    intros l' Hl'. unfold methods_of.
    destruct (decide (l' = l)) as [->|Hne]; [by rewrite Hagain | by rewrite Hf1].
  - intros l' Hl'. apply not_elem_of_cons in Hl' as [Hne Hl'].
    by rewrite Hf2, Hf1.
  - intros l'. specialize (Hrel2 l').
    destruct (decide (l' = l)) as [->|Hne]; [|by rewrite <- (Hf1 l')].
    destruct (get_route w l) as [|r] eqn:Hl.
    + by rewrite Hat in Hrel2.
    + destruct Hat as (r' & Hok & Hl1). rewrite Hl1 in Hrel2.
      destruct (get_route w' l) as [|r'']; [done|].
      eapply had_changed_trans; [|exact Hrel2].
      by eapply _apply_endpoint_had_instruction_changed.
Qed.

Section one_instruction.
Variable get_another_version_of_cls : pytype → Path → list Path → result pytype.
Variable _get_version_dir_path : ModuleType → VersionDate → Path.

Lemma migrate_route_to_version_fields self r d ignore st r' st' :
  migrate_route_to_version get_another_version_of_cls self r d ignore st
    = Ok (r', st') →
  path r' = path r ∧ methods r' = methods r ∧ tags r' = tags r ∧
  attrs r' = attrs r.
Proof.
  unfold migrate_route_to_version. intros H.
  repeat match type of H with
         | match ?x with _ => _ end = _ => destruct x as [[? ?]|]; [|discriminate]
         end.
  by injection H as <- <-.
Qed.

Lemma delete_route_modifies w acc l w' acc' :
  delete_route (w, acc) l = Ok (w', acc') →
  modifies_only [l] w w' ∧ methods_kept w w' ∧ acc' = acc ∪ methods_of w l.
Proof.
  unfold delete_route, methods_of. destruct (get_route w l) as [|r] eqn:Hl.
  - intros [= <- <-]. split; [apply modifies_only_refl|].
    split; [done | set_solver].
  - intros [= <- <-]. split; [by apply modifies_only_set_taglist|].
    split; [by apply methods_kept_same_routes | done].
Qed.

Lemma restore_route_modifies w acc l w' acc' :
  restore_route (w, acc) l = Ok (w', acc') →
  modifies_only [l] w w' ∧ methods_kept w w' ∧ acc' = acc ∪ methods_of w l.
Proof.
  unfold restore_route, methods_of. destruct (get_route w l) as [|r] eqn:Hl.
  - intros [= <- <-]. split; [apply modifies_only_refl|].
    split; [done | set_solver].
  - destruct (list_remove_first _ _) as [tags'|]; [|discriminate].
    intros [= <- <-]. split_and!; [| |done].
    + eapply modifies_only_trans; [by apply modifies_only_set_taglist|].
      case_match; [by apply modifies_only_same_store | apply modifies_only_refl].
    + apply methods_kept_same_routes. by case_match.
Qed.

Lemma replace_handler_modifies self version old_endpoint w acc l w' acc' :
  replace_handler get_another_version_of_cls _get_version_dir_path self version
    old_endpoint (w, acc) l = Ok (w', acc') →
  modifies_only [l] w w' ∧ methods_kept w w' ∧ acc' = acc ∪ methods_of w l.
Proof.
  unfold replace_handler, methods_of. destruct (get_route w l) as [|r] eqn:Hl.
  - intros [= <- <-]. split; [apply modifies_only_refl|].
    split; [done | set_solver].
  - intros H.
    assert (∃ r2 w2, _add_data_migrations_to_route r2 w2 = Ok
                       (match _add_data_migrations_to_route r2 w2 with
                        | Ok x => x | Raise _ => (r, w) end) ∧
              methods r2 = methods r ∧ tags r2 = tags r ∧
              modifies_only [l] w w2 ∧ route_store w2 = route_store w ∧
              (let '(r3, w3) := match _add_data_migrations_to_route r2 w2 with
                                | Ok x => x | Raise _ => (r, w) end in
               w' = set_routes w3 (<[l := IsAPIRoute r3]> (route_store w3)) ∧
               acc' = acc ∪ methods r))
      as (r2 & w2 & Hadd & Hm2 & Ht2 & Hmod2 & Hrs2 & Hfin).
    { destruct (annotation_transformer self) as [t|].
      - destruct (migrate_route_to_version _ _ _ _ _ _) as [[r2 st]|] eqn:Hmig;
          [|discriminate].
        apply migrate_route_to_version_fields in Hmig as (_ & Hm & Ht & _).
        exists r2, (set_engine w st).
        destruct (_add_data_migrations_to_route r2 (set_engine w st))
          as [[r3 w3]|]; [|discriminate].
        injection H as <- <-. split_and!; try done.
        by apply modifies_only_same_store.
      - exists (set_endpoint r old_endpoint), w.
        destruct (_add_data_migrations_to_route _ w) as [[r3 w3]|];
          [|discriminate].
        injection H as <- <-. split_and!; try done.
        apply modifies_only_refl. }
    unfold _add_data_migrations_to_route in Hadd, Hfin.
    destruct (negb (fn_is_coroutine (endpoint r2))); [discriminate|].
    destruct Hfin as [-> ->].
    assert (get_route w2 l = IsAPIRoute r) as Hl2.
    { unfold get_route. by rewrite Hrs2. }
    split_and!; [| |done].
    + eapply modifies_only_trans; [exact Hmod2|].
      eapply modifies_only_trans.
      * apply (modifies_only_same_store [l] w2
                 (set_engine w2 (mkEngine (change_cache w2) (S (next_object w2)))));
          done.
      * apply modifies_only_set_route with r; simpl; [done|congruence].
    + eapply methods_kept_trans; [by apply (methods_kept_same_routes w w2)|].
      eapply methods_kept_trans;
        [apply (methods_kept_same_routes w2
                  (set_engine w2
                     (mkEngine (change_cache w2) (S (next_object w2))))); done|].
      by apply methods_kept_set_route with r.
Qed.

(** An instruction changes the routes it works on and the tag lists they
    hold, and nothing else; the methods it applied changes to are those
    the routes had. *)
Lemma instruction_effect_frame self version vc routes ins w w' applied err :
  instruction_effect get_another_version_of_cls _get_version_dir_path self
    version vc routes ins w = Ok (w', applied, err) →
  frame_only (affected_routes w routes ins) w w' ∧
  applied = method_union w (affected_routes w routes ins).
Proof.
  unfold instruction_effect, affected_routes.
  destruct ins as [p ms fn|p ms fn|p ms fn attributes|p ms fn old]; simpl.
  - destruct (_get_routes w routes p ms fn true); [|discriminate].
    destruct (for_loop _ _ _) as [[w1 a1]|] eqn:Hl; [|discriminate].
    intros [= <- <- <-].
    apply (for_loop_modifies _ _ delete_route_modifies) in Hl as (? & _ & ->).
    split; [by apply modifies_only_frame | set_solver].
  - destruct (_get_routes w routes p ms fn false); [|discriminate].
    destruct (_validate_no_repetitions_in_routes _ _) as [[? ?]|]; [discriminate|].
    destruct (for_loop _ _ _) as [[w1 a1]|] eqn:Hl; [|discriminate].
    intros [= <- <- <-].
    apply (for_loop_modifies _ _ restore_route_modifies) in Hl as (? & _ & ->).
    split; [by apply modifies_only_frame | set_solver].
  - destruct (for_loop _ _ _) as [[w1 a1]|] eqn:Hl; [|discriminate].
    intros [= <- <- <-].
    apply had_loop in Hl as (-> & Hrs & Hts & Hlen & Hf & _).
    split; [|set_solver]. unfold frame_only, get_tags. rewrite Hrs, Hts.
    by split_and!.
  - destruct (for_loop _ _ _) as [[w1 a1]|] eqn:Hl; [|discriminate].
    intros [= <- <- <-].
    apply (for_loop_modifies _ _ (replace_handler_modifies self version old)) in Hl
      as (? & _ & ->).
    split; [by apply modifies_only_frame | set_solver].
Qed.


End one_instruction.

Section instruction_claims.
Variable get_another_version_of_cls : pytype → Path → list Path → result pytype.
Variable _get_version_dir_path : ModuleType → VersionDate → Path.
Variable self : _EndpointTransformer.
Variable version : Version.
Variable version_change : VersionChange.

Let effect := instruction_effect get_another_version_of_cls
                _get_version_dir_path self version version_change.
Let carry_out := apply_instruction get_another_version_of_cls
                   _get_version_dir_path self version version_change.

(** C10. Method-subset matching: the routes an instruction finds are the
    [APIRoute]s of the table whose path is the instruction's, whose
    methods are all among the declared ones, whose handler has the given
    name when one is given, and whose deletion status is the one asked
    for. A route with a method outside the declared set is not among the
    routes the instruction works on, is left as it is, keeps its tags
    when no other route of the table holds its tag list, and the methods
    counted as affected are those of the routes worked on. *)
Theorem method_subset_matching routes instruction w w' applied err :
  effect routes instruction w = Ok (w', applied, err) →
  (∀ is_deleted l,
     (l ∈ _get_routes w routes (endpoint_path instruction)
            (endpoint_methods instruction) (endpoint_func_name instruction)
            is_deleted) ↔
     l ∈ routes ∧
     ∃ r, get_route w l = IsAPIRoute r ∧
          path r = VStr (endpoint_path instruction) ∧
          methods r ⊆ list_to_set (endpoint_methods instruction) ∧
          (∀ n, endpoint_func_name instruction = Some n →
                fn_name (endpoint r) = n) ∧
          has_deleted_tag w r = is_deleted) ∧
  applied = method_union w (affected_routes w routes instruction) ∧
  (∀ l r, get_route w l = IsAPIRoute r →
     methods r ⊈ list_to_set (endpoint_methods instruction) →
     (l ∉ affected_routes w routes instruction) ∧
     get_route w' l = IsAPIRoute r ∧
     ((∀ l' r', l' ∈ routes → l' ≠ l → get_route w l' = IsAPIRoute r' →
                tags r' ≠ tags r) →
      get_tags w' (tags r) = get_tags w (tags r))).
Proof.
  intros Hrun. split; [intros; apply _get_routes_spec|].
  apply instruction_effect_frame in Hrun as [Hmod ->]. split; [done|].
  intros l r Hl Hsub.
  assert (l ∉ affected_routes w routes instruction) as Hnot.
  { intros Hin. apply _get_routes_spec in Hin as (_ & r' & Hr' & _ & Hsub' & _).
    congruence. }
  destruct Hmod as (_ & _ & _ & Hf & Hg).
  split; [done|]. split; [by rewrite Hf|].
  intros Hown. apply Hg. unfold api_tags.
  intros (l' & Hl' & Hx)%list_elem_of_omap.
  destruct (get_route w l') as [|r'] eqn:Hr'; [done|]. injection Hx as Hx.
  destruct (decide (l' = l)) as [->|Hne]; [done|].
  apply _get_routes_spec in Hl' as [Hl' _]. by eapply Hown.
Qed.

(** C4. Partial application: once an instruction has been carried out on
    the routes it found, the methods it affected are among the declared
    ones; the instruction passes when they are all of them, and raises
    its missing-endpoint error, with the methods left out, when they are
    not. *)
Theorem partial_application_check routes instruction w w' applied err :
  effect routes instruction w = Ok (w', applied, err) →
  applied ⊆ list_to_set (endpoint_methods instruction) ∧
  (applied = list_to_set (endpoint_methods instruction) →
   carry_out routes w instruction = Ok w') ∧
  (applied ≠ list_to_set (endpoint_methods instruction) →
   carry_out routes w instruction
   = Raise (RouterGenerationError
              (err (list_to_set (endpoint_methods instruction) ∖ applied)
                 (endpoint_path instruction)
                 (version_change_name version_change)))).
Proof.
  intros Hrun.
  assert (applied ⊆ list_to_set (endpoint_methods instruction)) as Hsub.
  { apply instruction_effect_frame in Hrun as [_ ->].
    apply _get_routes_methods. }
  split; [done|]. unfold carry_out, apply_instruction. fold effect. rewrite Hrun.
  split; intros H.
  - rewrite decide_True; [done|]. set_solver.
  - rewrite decide_False; [done|]. intros Hempty. apply H.
    apply set_eq. intros m. split; [by apply Hsub|]. intros Hm.
    destruct (decide (m ∈ applied)); [done|]. set_solver.
Qed.

(** C5. Ambiguous double delete: when an instruction says that an endpoint
    did not exist and the table holds a route of that endpoint that is
    already marked deleted, the instruction raises the error of a route
    deleted twice, whatever active routes there are; no route is marked. *)
Theorem ambiguous_double_delete routes w p ms fn :
  _get_routes w routes p ms fn true ≠ [] →
  carry_out routes w (EndpointDidntExistInstruction p ms fn)
  = Raise (RouterGenerationError
             (AlreadyDeleted (method_union w (_get_routes w routes p ms fn true))
                p (version_change_name version_change)
                (endpoint_names w (_get_routes w routes p ms fn true)))).
Proof.
  intros Hdel. unfold carry_out, apply_instruction, instruction_effect. simpl.
  by destruct (_get_routes w routes p ms fn true).
Qed.

End instruction_claims.

Lemma method_subset_matching_witness :
  Scenarios.effect [0; 1] Scenarios.delete_get_items Scenarios.two_routes
    = Ok (Scenarios.after_delete, {["GET"]}, DeletedDoesntExist) ∧
  (0 ∉ affected_routes Scenarios.two_routes [0; 1] Scenarios.delete_get_items) ∧
  get_route Scenarios.after_delete 0 = IsAPIRoute Scenarios.both_items.
Proof.
  assert (Scenarios.effect [0; 1] Scenarios.delete_get_items Scenarios.two_routes
          = Ok (Scenarios.after_delete, {["GET"]}, DeletedDoesntExist)) as Hrun
    by (vm_compute; reflexivity).
  split; [exact Hrun|].
  destruct (method_subset_matching Scenarios.no_resolver
              Scenarios.version_dir_path (Scenarios.transformer [])
              Scenarios.a_version Scenarios.a_change [0; 1]
              Scenarios.delete_get_items Scenarios.two_routes
              Scenarios.after_delete {["GET"]} DeletedDoesntExist Hrun)
    as (_ & _ & Hleft).
  destruct (Hleft 0 Scenarios.both_items) as (Hnot & Hsame & _).
  - reflexivity.
  - apply (bool_decide_unpack _). vm_compute. exact I.
  - split; [exact Hnot | exact Hsame].
Defined.

Lemma partial_application_check_witness :
  Scenarios.carry_out [0; 1] Scenarios.two_routes Scenarios.delete_get_items
    = Ok Scenarios.after_delete.
Proof.
  destruct (partial_application_check Scenarios.no_resolver
              Scenarios.version_dir_path (Scenarios.transformer [])
              Scenarios.a_version Scenarios.a_change [0; 1]
              Scenarios.delete_get_items Scenarios.two_routes
              Scenarios.after_delete {["GET"]} DeletedDoesntExist)
    as (_ & Hok & _).
  - vm_compute. reflexivity.
  - apply Hok. vm_compute. reflexivity.
Defined.

Lemma ambiguous_double_delete_witness :
  Scenarios.carry_out [0; 1] Scenarios.one_deleted Scenarios.delete_get_items
    = Raise (RouterGenerationError
               (AlreadyDeleted {["GET"]} "/items" "RemoveItems" ["get_items"])).
Proof.
  apply (ambiguous_double_delete Scenarios.no_resolver
           Scenarios.version_dir_path (Scenarios.transformer [])
           Scenarios.a_version Scenarios.a_change [0; 1] Scenarios.one_deleted
           "/items" ["GET"] None).
  vm_compute. discriminate.
Defined.

(** ** Well-formed routers *)



Lemma api_tags_cons w l ls :
  api_tags w (l :: ls) =
  match get_route w l with
  | IsAPIRoute r => tags r :: api_tags w ls
  | OtherRoute => api_tags w ls
  end.
Proof. unfold api_tags. simpl. by destruct (get_route w l). Qed.

Lemma api_tags_app w ls1 ls2 :
  api_tags w (ls1 ++ ls2) = api_tags w ls1 ++ api_tags w ls2.
Proof.
  induction ls1 as [|l ls1 IH]; [done|].
  rewrite <- app_comm_cons, !api_tags_cons, IH. by destruct (get_route w l).
Qed.



(** What the transformer looks at in a route: path, methods, name of the
    handler and whether it is marked deleted. *)
Definition view_of (w : world) (l : nat)
  : option (attr_value * gset string * string * bool) :=
  match get_route w l with
  | OtherRoute => None
  | IsAPIRoute r =>
      Some (path r, methods r, fn_name (endpoint r), has_deleted_tag w r)
  end.

Lemma route_is_found_view w w' p ms fn del l l' :
  view_of w' l' = view_of w l →
  route_is_found w' p ms fn del l' = route_is_found w p ms fn del l.
Proof.
  unfold view_of, route_is_found.
  destruct (get_route w l), (get_route w' l'); try done.
  by intros [= -> -> -> ->].
Qed.

Lemma is_deleted_route_view w w' l l' :
  view_of w' l' = view_of w l → is_deleted_route w' l' = is_deleted_route w l.
Proof.
  unfold view_of, is_deleted_route.
  destruct (get_route w l), (get_route w' l'); try done.
  by intros [= _ _ _ ->].
Qed.


(** ** Deep copies *)


(** The route [l'] of [w'] is a copy of the route [l] of [w]. *)
Definition copied (w w' : world) (l l' : nat) : Prop :=
  match get_route w l, get_route w' l' with
  | OtherRoute, OtherRoute => True
  | IsAPIRoute r, IsAPIRoute r' =>
      path r' = path r ∧ methods r' = methods r ∧ endpoint r' = endpoint r ∧
      attrs r' = attrs r ∧ get_tags w' (tags r') = get_tags w (tags r)
  | _, _ => False
  end.














Lemma copied_view w w' l l' : copied w w' l l' → view_of w' l' = view_of w l.
Proof.
  unfold copied, view_of, has_deleted_tag.
  destruct (get_route w l) as [|r], (get_route w' l') as [|r']; try done.
  by intros (-> & -> & -> & _ & ->).
Qed.

Lemma copied_views w w' ls ls' :
  Forall2 (copied w w') ls ls' → view_of w' <$> ls' = view_of w <$> ls.
Proof.
  induction 1 as [|l l' ls ls' Hc _ IH]; [done|].
  rewrite !fmap_cons, IH. f_equal. by apply copied_view.
Qed.


(** ** Marking and unmarking routes *)



Lemma list_remove_first_is_Some l :
  0 < deleted_tags l → is_Some (list_remove_first _DELETED_ROUTE_TAG l).
Proof.
  unfold deleted_tags. induction l as [|x l IH]; simpl; [lia|].
  destruct (decide (x = _DELETED_ROUTE_TAG)) as [->|Hne]; [eauto|].
  rewrite filter_cons_False by done. intros [l' ->]%IH. simpl. eauto.
Qed.









Section apply_changes.
Variable get_another_version_of_cls : pytype → Path → list Path → result pytype.
Variable _get_version_dir_path : ModuleType → VersionDate → Path.
Variable self : _EndpointTransformer.
Variable version : Version.



End apply_changes.

(** ** The changes of one version *)




Section changes_of_a_version.
Variable get_another_version_of_cls : pytype → Path → list Path → result pytype.
Variable _get_version_dir_path : ModuleType → VersionDate → Path.
Variable self : _EndpointTransformer.
Variable version : Version.

Let effect := instruction_effect get_another_version_of_cls
                _get_version_dir_path self version.
Let carry_out := apply_instruction get_another_version_of_cls
                   _get_version_dir_path self version.


End changes_of_a_version.



Section instruction_keeps.
Variable get_another_version_of_cls : pytype → Path → list Path → result pytype.
Variable _get_version_dir_path : ModuleType → VersionDate → Path.
Variable self : _EndpointTransformer.
Variable version : Version.


End instruction_keeps.

(** ** Retargeting the routes of a router *)

(** What retargeting may change in the store: the response model, the
    dependencies and the handler of routes, and nothing the endpoint
    transformer matches routes by. *)
Definition retyped (w w' : world) : Prop :=
  router_store w' = router_store w ∧
  taglist_store w' = taglist_store w ∧
  routes_that_never_existed w' = routes_that_never_existed w ∧
  length (route_store w') = length (route_store w) ∧
  ∀ l, match get_route w l, get_route w' l with
       | OtherRoute, OtherRoute => True
       | IsAPIRoute r, IsAPIRoute r' =>
           path r' = path r ∧ methods r' = methods r ∧ tags r' = tags r ∧
           attrs r' = attrs r
       | _, _ => False
       end.

(** The handlers of the routes have the names they had. *)
Definition names_kept (w w' : world) : Prop :=
  ∀ l r r', get_route w l = IsAPIRoute r → get_route w' l = IsAPIRoute r' →
            fn_name (endpoint r') = fn_name (endpoint r).





Lemma retyped_view w w' l :
  retyped w w' → names_kept w w' → view_of w' l = view_of w l.
Proof.
  intros (_ & Hts & _ & _ & Hs) Hn. specialize (Hs l). specialize (Hn l).
  unfold view_of, has_deleted_tag, get_tags. rewrite Hts.
  destruct (get_route w l) as [|r], (get_route w' l) as [|r']; try done.
  destruct Hs as (-> & -> & -> & _). by rewrite (Hn r r').
Qed.


Section migrate.
Variable get_another_version_of_cls : pytype → Path → list Path → result pytype.
Variable _get_version_dir_path : ModuleType → VersionDate → Path.
Variable is_dir : Path → bool.
Variable t : _AnnotationTransformer.





End migrate.

(** ** Footprints of routers *)

(** The tag lists held by the [APIRoute]s of a router. *)
Definition router_tags (w : world) (router : nat) : list nat :=
  api_tags w (router_routes w router).

(** Two routers share no route object and no tag list. *)
Definition apart (w : world) (T1 T2 : nat) : Prop :=
  T1 ≠ T2 ∧
  (∀ l, l ∈ router_routes w T1 → l ∉ router_routes w T2) ∧
  (∀ t, t ∈ router_tags w T1 → t ∉ router_tags w T2).

(** The objects of a router lie below, or from, the given marks. *)
Definition below (w : world) (br bt : nat) (T : nat) : Prop :=
  (∀ l, l ∈ router_routes w T → l < br) ∧ (∀ t, t ∈ router_tags w T → t < bt).

Definition above (w : world) (br bt : nat) (T : nat) : Prop :=
  (∀ l, l ∈ router_routes w T → br ≤ l) ∧ (∀ t, t ∈ router_tags w T → bt ≤ t).

(** The routers have the routes and tag lists they had. *)
Definition same_footprints (w w' : world) : Prop :=
  ∀ T, router_routes w' T = router_routes w T ∧ router_tags w' T = router_tags w T.




Lemma same_footprints_apart w w' T1 T2 :
  same_footprints w w' → apart w T1 T2 → apart w' T1 T2.
Proof.
  intros H (? & Hr & Ht). destruct (H T1) as [R1 G1], (H T2) as [R2 G2].
  split; [done|]. rewrite R1, R2, G1, G2. done.
Qed.

Lemma same_footprints_below w w' br bt T :
  same_footprints w w' → below w br bt T → below w' br bt T.
Proof. intros H. destruct (H T) as [R1 G1]. unfold below. by rewrite R1, G1. Qed.

Lemma same_footprints_above w w' br bt T :
  same_footprints w w' → above w br bt T → above w' br bt T.
Proof. intros H. destruct (H T) as [R1 G1]. unfold above. by rewrite R1, G1. Qed.





(** ** The changes of a version on a well-formed table *)






Section version_keeps.
Variable get_another_version_of_cls : pytype → Path → list Path → result pytype.
Variable _get_version_dir_path : ModuleType → VersionDate → Path.
Variable self : _EndpointTransformer.




End version_keeps.

(** ** The tables of [transform] *)













Section transform_tables.
Variable get_another_version_of_cls : pytype → Path → list Path → result pytype.
Variable _get_version_dir_path : ModuleType → VersionDate → Path.
Variable is_dir : Path → bool.
Variable self : _EndpointTransformer.

Let run := transform_versions get_another_version_of_cls
             _get_version_dir_path is_dir self.


End transform_tables.

Module ScenarioA.

(** Scenario A: the latest router has [GET /items], which according to the
    one instruction did not exist until 2023-02-01. *)
Definition versions : VersionBundle :=
  [mkVersion "2023-02-01"
     [mkVersionChange "AddItems"
        [EndpointDidntExistInstruction "/items" ["GET"] None]];
   mkVersion "2023-01-01" []].

Definition outcome : result (gmap VersionDate nat * world) :=
  Scenarios.run versions Scenarios.latest.

Definition tables : gmap VersionDate nat :=
  match outcome with
  | Ok (routers, _) => routers
  | Raise _ => ∅
  end.

Definition final : world :=
  match outcome with
  | Ok (_, w) => w
  | Raise _ => Scenarios.latest
  end.

End ScenarioA.

Module SharedTags.

(** [GET /items] changed its tags from [old] to [older] and back: the two
    attribute changes that set [old] declare the same list object. *)
Definition items : APIRoute :=
  mkAPIRoute (VStr "/items") {["GET"]} (Scenarios.handler 0 "get_items") 0
    None [] ∅.

(** The tag list of the route, the list [old] and the list [older]. *)
Definition latest : world :=
  mkWorld [[0]] [IsAPIRoute items] [["new"]; ["old"]; ["older"]] 1 [] [].

Definition had_tags (t : nat) : AlterEndpointInstruction :=
  EndpointHadInstruction "/items" ["GET"] None
    (mkEndpointAttributesPayload None None None (Some t) None None None None
       None None None None None).

Definition versions : VersionBundle :=
  [mkVersion "2023-04-01" [mkVersionChange "TagsWereOld" [had_tags 1]];
   mkVersion "2023-03-01" [mkVersionChange "TagsWereOlder" [had_tags 2]];
   mkVersion "2023-02-01" [mkVersionChange "TagsWereOldBefore" [had_tags 1]];
   mkVersion "2023-01-01" []].

Definition outcome : result (gmap VersionDate nat * world) :=
  Scenarios.run versions latest.

Definition tables : gmap VersionDate nat :=
  match outcome with
  | Ok (routers, _) => routers
  | Raise _ => ∅
  end.

Definition final : world :=
  match outcome with
  | Ok (_, w) => w
  | Raise _ => latest
  end.

End SharedTags.

Section table_claims.
Variable get_another_version_of_cls : pytype → Path → list Path → result pytype.
Variable _get_version_dir_path : ModuleType → VersionDate → Path.
Variable is_dir : Path → bool.
Variable self : _EndpointTransformer.



End table_claims.



(** ** Copies are new objects *)




(** ** Routes that never existed *)





Section never_existed.
Variable get_another_version_of_cls : pytype → Path → list Path → result pytype.
Variable _get_version_dir_path : ModuleType → VersionDate → Path.
Variable self : _EndpointTransformer.



End never_existed.


Section dangling.
Variable get_another_version_of_cls : pytype → Path → list Path → result pytype.
Variable _get_version_dir_path : ModuleType → VersionDate → Path.
Variable _get_package_path_from_module : ModuleType → Path.
Variable is_dir : Path → bool.


End dangling.

Section dangling_claims.
Variable get_another_version_of_cls : pytype → Path → list Path → result pytype.
Variable _get_version_dir_path : ModuleType → VersionDate → Path.
Variable _get_package_path_from_module : ModuleType → Path.
Variable is_dir : Path → bool.


End dangling_claims.



(** ** The routes of an endpoint in a table *)














Section paths.
Variable get_another_version_of_cls : pytype → Path → list Path → result pytype.
Variable _get_version_dir_path : ModuleType → VersionDate → Path.
Variable self : _EndpointTransformer.
Variable version : Version.



End paths.







Section endpoint_of_a_table.
Variable get_another_version_of_cls : pytype → Path → list Path → result pytype.
Variable _get_version_dir_path : ModuleType → VersionDate → Path.
Variable self : _EndpointTransformer.
Variable version : Version.

Let effect := instruction_effect get_another_version_of_cls
                _get_version_dir_path self version.




End endpoint_of_a_table.



Section endpoint_over_a_version.
Variable get_another_version_of_cls : pytype → Path → list Path → result pytype.
Variable _get_version_dir_path : ModuleType → VersionDate → Path.
Variable self : _EndpointTransformer.
Variable version : Version.
Variable p : string.
Variable ms : list string.

Let carry_out := apply_instruction get_another_version_of_cls
                   _get_version_dir_path self version.






End endpoint_over_a_version.

(** ** The routes of an endpoint over the loop of [transform] *)



Section endpoint_over_transform.
Variable get_another_version_of_cls : pytype → Path → list Path → result pytype.
Variable _get_version_dir_path : ModuleType → VersionDate → Path.
Variable is_dir : Path → bool.
Variable self : _EndpointTransformer.
Variable p : string.
Variable ms : list string.

Let run := transform_versions get_another_version_of_cls
             _get_version_dir_path is_dir self.


End endpoint_over_transform.

Section round_trip.
Variable get_another_version_of_cls : pytype → Path → list Path → result pytype.
Variable _get_version_dir_path : ModuleType → VersionDate → Path.
Variable is_dir : Path → bool.
Variable self : _EndpointTransformer.
Variable p : string.
Variable ms : list string.

Let run := transform_versions get_another_version_of_cls
             _get_version_dir_path is_dir self.



End round_trip.

Section round_trip_claims.
Variable get_another_version_of_cls : pytype → Path → list Path → result pytype.
Variable _get_version_dir_path : ModuleType → VersionDate → Path.
Variable is_dir : Path → bool.
Variable self : _EndpointTransformer.


End round_trip_claims.

Module RoundTrip.

(** [GET /items] was added in 2023-03-01 and had been removed in
    2023-02-01: it did not exist in 2023-02-01 and existed in 2023-01-01. *)
Definition added : Version :=
  mkVersion "2023-03-01"
    [mkVersionChange "AddItems"
       [EndpointDidntExistInstruction "/items" ["GET"] None]].

Definition removed : Version :=
  mkVersion "2023-02-01"
    [mkVersionChange "RemoveItems"
       [EndpointExistedInstruction "/items" ["GET"] None]].

Definition first : Version := mkVersion "2023-01-01" [].

Definition versions : VersionBundle := [added; removed; first].

Definition outcome : result (gmap VersionDate nat * world) :=
  Scenarios.run versions Scenarios.latest.

Definition tables : gmap VersionDate nat :=
  match outcome with
  | Ok (routers, _) => routers
  | Raise _ => ∅
  end.

Definition final : world :=
  match outcome with
  | Ok (_, w) => w
  | Raise _ => Scenarios.latest
  end.

End RoundTrip.


